(** * fMRI preprocessing notebook: quality metrics and mean displacement

    A shallow embedding of the numeric code of
    [notebooks/003-fMRI_preprocessing.ipynb].  numpy's float64 values are
    modelled as the real numbers [R] of the Standard Library, so the
    statements below are about the arithmetic the notebook writes down, not
    about rounding; the module [F64] alone evaluates the two RMS cells on
    binary64 values.  numpy arrays of a fixed small shape (the 4x4 affines)
    are index functions with the shape carried in the type; data arrays
    whose shape is read at run time carry their shape in a record; the
    subjects-by-time tables are lists of rows. *)

From Stdlib Require Import Reals Lra Lia List Arith Bool PeanoNat.
From Stdlib Require String Ascii Floats Uint63.
From Stdlib Require Import Sorted.
Import ListNotations.

Open Scope R_scope.

(** ** Finite sums over [range(n)] *)

Fixpoint sum_n (n : nat) (f : nat -> R) : R :=
  match n with
  | O => 0
  | S k => sum_n k f + f k
  end.

(** ** numpy.matrix of a static shape *)

Module Mat.

(** An [m] by [n] matrix; only the entries with [i < m] and [j < n] are
    ever read. *)
Definition mat (m n : nat) : Type := nat -> nat -> R.

(** [a * b] on [np.matrix]. *)
Definition mul {m n p : nat} (a : mat m n) (b : mat n p) : mat m p :=
  fun i j => sum_n n (fun k => a i k * b k j).

(** [a - b] and [a + b], element-wise. *)
Definition sub {m n : nat} (a b : mat m n) : mat m n :=
  fun i j => a i j - b i j.

Definition add {m n : nat} (a b : mat m n) : mat m n :=
  fun i j => a i j + b i j.

(** [a.T]. *)
Definition T {m n : nat} (a : mat m n) : mat n m :=
  fun i j => a j i.

(** [np.trace(a)]. *)
Definition trace {n : nat} (a : mat n n) : R :=
  sum_n n (fun i => a i i).

(** [a[r0:r0+m, c0:c0+n]]. *)
Definition block {m' n' : nat} (r0 c0 m n : nat) (a : mat m' n') : mat m n :=
  fun i j => a (r0 + i)%nat (c0 + j)%nat.

(** [a[r0:r0+m, c]] on an [np.matrix]: a column, still two-dimensional. *)
Definition column {m' n' : nat} (r0 m c : nat) (a : mat m' n') : mat m 1 :=
  fun i _ => a (r0 + i)%nat c.

(** [s + a] for a scalar [s]: numpy broadcasts the scalar. *)
Definition scalar_add {m n : nat} (s : R) (a : mat m n) : mat m n :=
  fun i j => s + a i j.

(** [np.sqrt(a)], element-wise. *)
Definition msqrt {m n : nat} (a : mat m n) : mat m n :=
  fun i j => sqrt (a i j).

(** A matrix written out by rows, as in [np.matrix(((..),(..)))]. *)
Definition of_rows (m n : nat) (rows : list (list R)) : mat m n :=
  fun i j => nth j (nth i rows []) 0.

(** The identity affine. *)
Definition eye (n : nat) : mat n n :=
  fun i j => if Nat.eqb i j then 1 else 0.

(** Two matrices agree on their shape. *)
Definition eqm {m n : nat} (a b : mat m n) : Prop :=
  forall i j, (i < m)%nat -> (j < n)%nat -> a i j = b i j.

End Mat.

(** The entry in row [i] and column [j]. *)
Notation "a .[ i , j ]" := (a i%nat j%nat) (at level 1, only parsing).

(** The 4x4 affines and the 3x1 column vectors. *)
Notation "'affine'" := (Mat.mat 4 4).
Notation "'vec3'" := (Mat.mat 3 1).

(** ** Arrays filled in a loop *)

(** [a[i] = v] on an array held as a list; the loops below only write
    inside the array. *)
Fixpoint set_nth {A : Type} (i : nat) (v : A) (l : list A) : list A :=
  match l, i with
  | [], _ => []
  | _ :: tl, O => v :: tl
  | x :: tl, S k => x :: set_nth k v tl
  end.

(** [enumerate(l)]. *)
Definition enumerate {A : Type} (l : list A) : list (nat * A) :=
  combine (seq 0 (length l)) l.

(** [for index, x in enumerate(l): out[index] = f(x)], starting from the
    array [out]. *)
Definition fill_loop {A B : Type} (f : A -> B) (l : list A) (out : list B) : list B :=
  fold_left (fun acc ix => set_nth (fst ix) (f (snd ix)) acc) (enumerate l) out.

(** [np.zeros(n)]. *)
Definition zeros (n : nat) : list R := repeat 0 n.

(** ** The displacement summary (cells "Compute and plot the mean displacement"
    and "Motion correction for all subjects") *)

(** [R = 70.], the radius of the spherical head assumption. *)
Definition R_default : R := 70.

(** [xc = np.matrix((0,0,0)).T], the center of the volume. *)
Definition xc_default : vec3 := Mat.T (Mat.of_rows 1 3 [[0; 0; 0]]).

(** [T_error = ref_affine - ref_affine * t.as_affine()]. *)
Definition T_error (ref_affine t_affine : affine) : affine :=
  Mat.sub ref_affine (Mat.mul ref_affine t_affine).

(** The body of the loop over the frames: the value stored for one
    transform.  The right-hand side is a 1x1 matrix, whose single entry is
    stored into the array. *)
Definition displacement (Rad : R) (xc : vec3) (ref_affine t_affine : affine) : R :=
  let T_err := T_error ref_affine t_affine in
  let A : Mat.mat 3 3 := Mat.block 0 0 3 3 T_err in
  let t : vec3 := Mat.column 0 3 3 T_err in
  let v : vec3 := Mat.add t (Mat.mul A xc) in
  Mat.msqrt
    (Mat.scalar_add (Rad ^ 2 / 5 * Mat.trace (Mat.mul (Mat.T A) A))
                    (Mat.mul (Mat.T v) v)) 0%nat 0%nat.

(** One subject: [mean_displacement = np.zeros((num_timepoints))] filled
    over [enumerate(transforms[0:num_timepoints])]. *)
Definition mean_displacement (Rad : R) (xc : vec3) (ref_affine : affine)
    (transforms : list affine) (num_timepoints : nat) : list R :=
  fill_loop (displacement Rad xc ref_affine)
            (firstn num_timepoints transforms) (zeros num_timepoints).

(** All subjects: one row of [mean_displacement_all] per subject, each
    subject given by its reference affine and its estimated transforms. *)
Definition mean_displacement_all (Rad : R) (xc : vec3)
    (subjects : list (affine * list affine)) (num_timepoints : nat)
    : list (list R) :=
  fill_loop (fun s => mean_displacement Rad xc (fst s) (snd s) num_timepoints)
            subjects
            (repeat (zeros num_timepoints) (length subjects)).

(** ** numpy arrays whose shape is read at run time *)

Record nd1 : Type := Nd1 { len1 : nat; at1 : nat -> R }.
Record nd2 : Type := Nd2 { rows2 : nat; cols2 : nat; at2 : nat -> nat -> R }.
Record nd3 : Type :=
  Nd3 { dx3 : nat; dy3 : nat; dz3 : nat; at3 : nat -> nat -> nat -> R }.
Record nd4 : Type :=
  Nd4 { dx4 : nat; dy4 : nat; dz4 : nat; dt4 : nat;
        at4 : nat -> nat -> nat -> nat -> R }.

(** Broadcasting of one axis: an axis of length 1 is stretched to the other
    operand's length and always reads its entry 0.  Every subtraction of the
    notebook has, on each axis, equal lengths or a length of 1. *)
Definition bdim (d d' : nat) : nat := if Nat.eqb d 1 then d' else d.
Definition bidx (d i : nat) : nat := if Nat.eqb d 1 then O else i.

Module Nd.

(** A mean over an axis without entries, [nan] in numpy, is the quotient
    [0 / 0] here. *)

(** [a.mean(axis=3)] of a 4-d array. *)
Definition mean_axis3 (a : nd4) : nd3 :=
  Nd3 (dx4 a) (dy4 a) (dz4 a)
      (fun x y z => sum_n (dt4 a) (fun t => at4 a x y z t) / INR (dt4 a)).

(** [a.reshape(a.shape + (1,))] of a 3-d array. *)
Definition reshape_trailing1 (a : nd3) : nd4 :=
  Nd4 (dx3 a) (dy3 a) (dz3 a) 1 (fun x y z _ => at3 a x y z).

(** [a[:,:,:,t]]. *)
Definition frame (a : nd4) (t : nat) : nd3 :=
  Nd3 (dx4 a) (dy4 a) (dz4 a) (fun x y z => at4 a x y z t).

(** [a - b] with broadcasting, 3-d and 4-d. *)
Definition sub3 (a b : nd3) : nd3 :=
  Nd3 (bdim (dx3 a) (dx3 b)) (bdim (dy3 a) (dy3 b)) (bdim (dz3 a) (dz3 b))
      (fun x y z =>
         at3 a (bidx (dx3 a) x) (bidx (dy3 a) y) (bidx (dz3 a) z)
         - at3 b (bidx (dx3 b) x) (bidx (dy3 b) y) (bidx (dz3 b) z)).

Definition sub4 (a b : nd4) : nd4 :=
  Nd4 (bdim (dx4 a) (dx4 b)) (bdim (dy4 a) (dy4 b)) (bdim (dz4 a) (dz4 b))
      (bdim (dt4 a) (dt4 b))
      (fun x y z t =>
         at4 a (bidx (dx4 a) x) (bidx (dy4 a) y) (bidx (dz4 a) z)
               (bidx (dt4 a) t)
         - at4 b (bidx (dx4 b) x) (bidx (dy4 b) y) (bidx (dz4 b) z)
                 (bidx (dt4 b) t)).

(** [a**2], element-wise. *)
Definition sq3 (a : nd3) : nd3 :=
  Nd3 (dx3 a) (dy3 a) (dz3 a) (fun x y z => at3 a x y z ^ 2).

Definition sq4 (a : nd4) : nd4 :=
  Nd4 (dx4 a) (dy4 a) (dz4 a) (dt4 a) (fun x y z t => at4 a x y z t ^ 2).

(** [np.mean(a)] of a 3-d array: the mean of all its entries. *)
Definition mean_all3 (a : nd3) : R :=
  sum_n (dx3 a) (fun x => sum_n (dy3 a) (fun y => sum_n (dz3 a) (fun z =>
    at3 a x y z)))
  / INR (dx3 a * dy3 a * dz3 a).

(** [a.mean(axis=0)] of a 4-d, a 3-d and a 2-d array. *)
Definition mean0_4 (a : nd4) : nd3 :=
  Nd3 (dy4 a) (dz4 a) (dt4 a)
      (fun y z t => sum_n (dx4 a) (fun x => at4 a x y z t) / INR (dx4 a)).

Definition mean0_3 (a : nd3) : nd2 :=
  Nd2 (dy3 a) (dz3 a)
      (fun y z => sum_n (dx3 a) (fun x => at3 a x y z) / INR (dx3 a)).

Definition mean0_2 (a : nd2) : nd1 :=
  Nd1 (cols2 a)
      (fun y => sum_n (rows2 a) (fun x => at2 a x y) / INR (rows2 a)).

(** [np.sqrt(a)] of a 1-d array. *)
Definition sqrt1 (a : nd1) : nd1 := Nd1 (len1 a) (fun i => sqrt (at1 a i)).

(** The entries of a 1-d array, in order. *)
Definition to_list (a : nd1) : list R := map (at1 a) (seq 0 (len1 a)).

End Nd.

(** ** RMS error over time, one subject *)

(** [for t in range(n): out[t] = g(t)], starting from the array [out]. *)
Definition range_loop {B : Type} (g : nat -> B) (n : nat) (out : list B) : list B :=
  fold_left (fun acc t => set_nth t (g t) acc) (seq 0 n) out.

(** The loop of the cell "RMS error over time". *)
Definition rms_loop (s1_bold_arr : nd4) : list R :=
  let temporal_mean := Nd.mean_axis3 s1_bold_arr in
  let num_timepoints := dt4 s1_bold_arr in
  range_loop
    (fun t =>
       let squared_difference :=
         Nd.sq3 (Nd.sub3 temporal_mean (Nd.frame s1_bold_arr t)) in
       sqrt (Nd.mean_all3 squared_difference))
    num_timepoints (zeros num_timepoints).

(** The broadcast version of the next cells. *)
Definition rms_broadcast (s1_bold_arr : nd4) : nd1 :=
  let temporal_mean := Nd.mean_axis3 s1_bold_arr in
  let temporal_mean := Nd.reshape_trailing1 temporal_mean in
  let squared_difference := Nd.sq4 (Nd.sub4 temporal_mean s1_bold_arr) in
  Nd.sqrt1 (Nd.mean0_2 (Nd.mean0_3 (Nd.mean0_4 squared_difference))).

(** ** Quality metrics across all subjects *)

Definition shape4 : Type := (nat * nat * nat * nat)%type.

(** [nib.load(bold_fname).get_shape()]. *)
Definition get_shape (a : nd4) : shape4 := (dx4 a, dy4 a, dz4 a, dt4 a).

(** [dims_all]: one row of four dimensions per subject.  The table is a
    float array in the notebook; it only ever holds these integers. *)
Definition dims_all (subjects : list nd4) : list shape4 := map get_shape subjects.

Definition min_shape (s s' : shape4) : shape4 :=
  match s, s' with
  | (a, b, c, d), (a', b', c', d') =>
      (Nat.min a a', Nat.min b b', Nat.min c c', Nat.min d d')
  end.

(** [dims.min(axis=0)]; numpy raises on a table without rows. *)
Definition min_axis0 (dims : list shape4) : option shape4 :=
  match dims with
  | [] => None
  | s :: rest => Some (fold_left min_shape rest s)
  end.

(** [num_timepoints = int(dims_all.min(axis=0)[3])]. *)
Definition num_timepoints (dims : list shape4) : option nat :=
  match min_axis0 dims with
  | None => None
  | Some (_, _, _, d) => Some d
  end.

(** [rms_all]: one row per subject, the subject's broadcast RMS curve cut by
    [[0:num_timepoints]]. *)
Definition rms_row (n : nat) (bold_arr : nd4) : list R :=
  firstn n (Nd.to_list (rms_broadcast bold_arr)).

Definition rms_all (subjects : list nd4) : option (list (list R)) :=
  match num_timepoints (dims_all subjects) with
  | None => None
  | Some n =>
      Some (fill_loop (rms_row n) subjects
                      (repeat (zeros n) (length subjects)))
  end.

(** ** The worst subject *)

(** [np.sum] of a 1-d array. *)
Definition sum_list (l : list R) : R := fold_right Rplus 0 l.

(** [a.mean(axis=1)] of a table. *)
Definition mean_axis1 (m : list (list R)) : list R :=
  map (fun row => sum_list row / INR (length row)) m.

(** [a.max()] of a 1-d array; numpy raises on an empty array. *)
Definition max_list (l : list R) : option R :=
  match l with
  | [] => None
  | x :: rest => Some (fold_left Rmax rest x)
  end.

(** [np.nonzero(mask)[0]] of a 1-d mask: the indices of its true entries,
    in increasing order. *)
Fixpoint nonzero_from (i : nat) (mask : list bool) : list nat :=
  match mask with
  | [] => []
  | b :: rest => (if b then [i] else []) ++ nonzero_from (S i) rest
  end.

Definition nonzero (mask : list bool) : list nat := nonzero_from 0 mask.

Definition Req_b (x y : R) : bool := if Req_dec_T x y then true else false.
Definition Rge_b (x y : R) : bool := if Rge_dec x y then true else false.

(** [worst_subject = np.nonzero(mean_rms_all==mean_rms_all.max())[0][0]];
    the last index raises when no entry is selected. *)
Definition worst_subject (rms_table : list (list R)) : option nat :=
  let mean_rms_all := mean_axis1 rms_table in
  match max_list mean_rms_all with
  | None => None
  | Some mx => hd_error (nonzero (map (fun v => Req_b v mx) mean_rms_all))
  end.

(** ** Cross-subject aggregation of the displacement table *)

(** [np.diff] of one row: [row[1:] - row[:-1]]. *)
Fixpoint diff (row : list R) : list R :=
  match row with
  | x :: ((y :: _) as tl) => (y - x) :: diff tl
  | _ => []
  end.

(** [md_diff = np.diff(mean_displacement_all)], along the last axis. *)
Definition md_diff (table : list (list R)) : list (list R) := map diff table.

(** [md_diff_rms = np.sqrt(np.sum(md_diff**2, axis=1))]. *)
Definition md_diff_rms (table : list (list R)) : list R :=
  map sqrt (map sum_list (map (map (fun d => d ^ 2)) (md_diff table))).

(** [max_disp = 2.5]. *)
Definition max_disp_default : R := 2.5.

(** [bad_sub_inds = np.nonzero(md_diff_rms >= max_disp)[0]]. *)
Definition bad_sub_inds (max_disp : R) (table : list (list R)) : list nat :=
  nonzero (map (fun v => Rge_b v max_disp) (md_diff_rms table)).

(** ** The displacement formula as the specification writes it *)

Module Formula.

(** The entries of the error transform [E = R_ref - R_ref . T_i]. *)
Definition E (R_ref T_i : affine) (i j : nat) : R :=
  R_ref.[i, j]
  - (R_ref.[i, 0] * T_i.[0, j] + R_ref.[i, 1] * T_i.[1, j]
     + R_ref.[i, 2] * T_i.[2, j] + R_ref.[i, 3] * T_i.[3, j]).

(** [trace(A^T . A)] for the top-left 3x3 block [A] of [e]: the sum of
    the squares of the nine entries, column after column. *)
Definition trace_AtA (e : nat -> nat -> R) : R :=
  e.[0, 0] * e.[0, 0] + e.[1, 0] * e.[1, 0] + e.[2, 0] * e.[2, 0]
  + (e.[0, 1] * e.[0, 1] + e.[1, 1] * e.[1, 1] + e.[2, 1] * e.[2, 1])
  + (e.[0, 2] * e.[0, 2] + e.[1, 2] * e.[1, 2] + e.[2, 2] * e.[2, 2]).

(** The entry [i] of [t + A . xc], [t] the top-right 3x1 block of [e]. *)
Definition shift (e : nat -> nat -> R) (xc : vec3) (i : nat) : R :=
  e.[i, 3]
  + (e.[i, 0] * xc.[0, 0] + e.[i, 1] * xc.[1, 0] + e.[i, 2] * xc.[2, 0]).

(** [sqrt((r^2/5) trace(A^T A) + (t + A xc)^T (t + A xc))]. *)
Definition displacement (r : R) (xc : vec3) (R_ref T_i : affine) : R :=
  let e := E R_ref T_i in
  sqrt (r * r / 5 * trace_AtA e
        + (shift e xc 0 * shift e xc 0 + shift e xc 1 * shift e xc 1
           + shift e xc 2 * shift e xc 2)).

End Formula.

(** ** Particular transforms *)

(** The pure translation by [(d0, d1, d2)]. *)
Definition translation (d0 d1 d2 : R) : affine :=
  Mat.of_rows 4 4 [[1; 0; 0; d0]; [0; 1; 0; d1]; [0; 0; 1; d2]; [0; 0; 0; 1]].

(** The affine with linear part [diag(s, s, s)] and no translation. *)
Definition scaling (s : R) : affine :=
  Mat.of_rows 4 4 [[s; 0; 0; 0]; [0; s; 0; 0]; [0; 0; s; 0]; [0; 0; 0; 1]].

(** The Euclidean norm of a 3-vector. *)
Definition norm3 (d0 d1 d2 : R) : R := sqrt (d0 * d0 + d1 * d1 + d2 * d2).

(** The image [M . d] of a vector under the linear part [M] of an affine. *)
Definition lin_apply (a : affine) (d0 d1 d2 : R) (i : nat) : R :=
  a.[i, 0] * d0 + a.[i, 1] * d1 + a.[i, 2] * d2.

(** The linear part of [a] is orthogonal: [M^T . M] is the identity. *)
Definition orthogonal_lin (a : affine) : Prop :=
  forall i j, (i < 3)%nat -> (j < 3)%nat ->
    a.[0, i] * a.[0, j] + a.[1, i] * a.[1, j] + a.[2, i] * a.[2, j]
    = if Nat.eqb i j then 1 else 0.

(** [t] is a rotation about the point [xc]: an orthogonal linear part [Q],
    the translation [xc - Q . xc] that keeps [xc] fixed, and the last row
    [0 0 0 1]. *)
Definition rotation_about (xc : vec3) (t : affine) : Prop :=
  orthogonal_lin t
  /\ (forall i, (i < 3)%nat ->
        t.[i, 3] = xc.[i, 0] - lin_apply t xc.[0, 0] xc.[1, 0] xc.[2, 0] i)
  /\ (forall j, (j < 3)%nat -> t.[3, j] = 0)
  /\ t.[3, 3] = 1.

(** An affine is invertible. *)
Definition invertible (a : affine) : Prop :=
  exists b : affine,
    Mat.eqm (Mat.mul a b) (Mat.eye 4) /\ Mat.eqm (Mat.mul b a) (Mat.eye 4).

(** The rotation by a quarter turn about the third axis through the
    origin. *)
Definition quarter_turn : affine :=
  Mat.of_rows 4 4 [[0; -1; 0; 0]; [1; 0; 0; 0]; [0; 0; 1; 0]; [0; 0; 0; 1]].

(** ** The per-subject summary as the specification writes it *)

(** The root of the sum of the squares of the first differences of a
    curve. *)
Definition root_sum_square_diff (curve : list R) : R :=
  sqrt (sum_n (length curve - 1)
          (fun j => (nth (S j) curve 0 - nth j curve 0) ^ 2)).

(** ** Sample volumes *)

(** A volume of the given shape with every voxel equal to [v]. *)
Definition const_volume (x y z t : nat) (v : R) : nd4 :=
  Nd4 x y z t (fun _ _ _ _ => v).

(** ** Further cells of the notebook *)

(** [temporal_std = s1_bold_arr.std(axis=3)]: for every voxel, the square
    root of the mean over time of the squared deviation from the voxel's
    temporal mean. *)
Definition std_axis3 (a : nd4) : nd3 :=
  Nd3 (dx4 a) (dy4 a) (dz4 a)
      (fun x y z =>
         sqrt (sum_n (dt4 a)
                 (fun t => (at4 a x y z t - at3 (Nd.mean_axis3 a) x y z) ^ 2)
               / INR (dt4 a))).

Definition max_shape (s s' : shape4) : shape4 :=
  match s, s' with
  | (a, b, c, d), (a', b', c', d') =>
      (Nat.max a a', Nat.max b b', Nat.max c c', Nat.max d d')
  end.

(** [dims.max(axis=0)]; numpy raises on a table without rows. *)
Definition max_axis0 (dims : list shape4) : option shape4 :=
  match dims with
  | [] => None
  | s :: rest => Some (fold_left max_shape rest s)
  end.

(** [[l[i] for i in inds]]: the first index past the end of [l] raises. *)
Fixpoint lookup_all {A : Type} (l : list A) (inds : list nat)
    : option (list A) :=
  match inds with
  | [] => Some []
  | i :: rest =>
      match nth_error l i with
      | None => None
      | Some x =>
          match lookup_all l rest with
          | None => None
          | Some xs => Some (x :: xs)
          end
      end
  end.

(** [[all_subs[s] for s in bad_sub_inds]], the names that are printed. *)
Definition bad_sub_names (all_subs : list String.string) (max_disp : R)
    (table : list (list R)) : option (list String.string) :=
  lookup_all all_subs (bad_sub_inds max_disp table).

(** [all_subs[worst_subject]], the directory of the subject that is motion
    corrected first, from the RMS table of all the subjects. *)
Definition worst_subject_name (all_subs : list String.string)
    (subjects : list nd4) : option String.string :=
  match rms_all subjects with
  | None => None
  | Some table =>
      match worst_subject table with
      | None => None
      | Some w => nth_error all_subs w
      end
  end.

(** One shape is at most another on every axis. *)
Definition shape_le (s s' : shape4) : Prop :=
  match s, s' with
  | (a, b, c, d), (a', b', c', d') =>
      (a <= a')%nat /\ (b <= b')%nat /\ (c <= c')%nat /\ (d <= d')%nat
  end.

(** Two directory names of the data set. *)
Module Names.
Import String.
Local Open Scope string_scope.
Definition sub001 : string := "sub001".
Definition sub002 : string := "sub002".
End Names.

(** A volume with at least one voxel and one frame. *)
Definition nonempty_volume (a : nd4) : Prop :=
  (0 < dx4 a)%nat /\ (0 < dy4 a)%nat /\ (0 < dz4 a)%nat /\ (0 < dt4 a)%nat.

(** ** The montage of a volume (the function [montage]) *)

(** [int(np.ceil(np.sqrt(n)))] for a number of slices [n]. *)
Definition ceil_sqrt (n : nat) : nat :=
  let s := Nat.sqrt n in if Nat.eqb (s * s) n then s else S s.

(** The ranks that [np.squeeze] of a 3-d array can have. *)
Inductive squeezed : Type :=
| Sq0 (v : R)
| Sq1 (a : nd1)
| Sq2 (a : nd2)
| Sq3 (a : nd3).

(** A 2-d or a 3-d array, the results of [np.vstack] here. *)
Inductive stacked : Type :=
| Im2 (a : nd2)
| Im3 (a : nd3).

(** [[f(x) for x in l]] where [f] can raise: the first failure ends the
    comprehension. *)
Fixpoint traverse {A B : Type} (f : A -> option B) (l : list A)
    : option (list B) :=
  match l with
  | [] => Some []
  | x :: rest =>
      match f x with
      | None => None
      | Some y =>
          match traverse f rest with
          | None => None
          | Some ys => Some (y :: ys)
          end
      end
  end.

(** [l[-1] = f(l[-1])] on a list. *)
Fixpoint map_last {A : Type} (f : A -> A) (l : list A) : list A :=
  match l with
  | [] => []
  | x :: rest =>
      match rest with
      | [] => [f x]
      | _ :: _ => x :: map_last f rest
      end
  end.

Module Np.

(** [a[:, :, lo:lo+k]]. *)
Definition slab (a : nd3) (lo k : nat) : nd3 :=
  Nd3 (dx3 a) (dy3 a) k (fun x y z => at3 a x y (lo + z)).

(** The consecutive slabs of the given depths, from slice [lo] on. *)
Fixpoint sections (a : nd3) (lo : nat) (sizes : list nat) : list nd3 :=
  match sizes with
  | [] => []
  | k :: rest => slab a lo k :: sections a (lo + k) rest
  end.

(** [np.array_split(a, n, axis=2)]: [l % n] sections of [l // n + 1]
    slices, then the others of [l // n] slices; numpy raises for [n = 0]. *)
Definition array_split (a : nd3) (n : nat) : option (list nd3) :=
  if Nat.eqb n 0 then None
  else
    Some (sections a 0
            (repeat (S (dz3 a / n)) (dz3 a mod n)
             ++ repeat (dz3 a / n)%nat (n - dz3 a mod n))).

(** [np.dsplit(a, n)]: [n] sections of equal depth; numpy raises when the
    depth is not a multiple of [n]. *)
Definition dsplit (a : nd3) (n : nat) : option (list nd3) :=
  if Nat.eqb n 0 then None
  else if Nat.eqb (dz3 a mod n) 0
       then Some (sections a 0 (repeat (dz3 a / n)%nat n))
       else None.

(** [np.dstack((a, np.zeros(a.shape[0:2] + (k,))))]. *)
Definition pad_depth (a : nd3) (k : nat) : nd3 :=
  Nd3 (dx3 a) (dy3 a) (dz3 a + k)
      (fun x y z => if Nat.ltb z (dz3 a) then at3 a x y z else 0).

(** The entry of a concatenation along axis 1. *)
Fixpoint hstack_at (parts : list nd3) (x y z : nat) : R :=
  match parts with
  | [] => 0
  | p :: rest =>
      if Nat.ltb y (dy3 p) then at3 p x y z
      else hstack_at rest x (y - dy3 p) z
  end.

(** [np.hstack(parts)] of 3-d arrays: the parts side by side along axis 1;
    numpy raises on an empty list and when the other axes differ. *)
Definition hstack (parts : list nd3) : option nd3 :=
  match parts with
  | [] => None
  | p :: rest =>
      if forallb (fun q => Nat.eqb (dx3 q) (dx3 p) && Nat.eqb (dz3 q) (dz3 p))
                 rest
      then Some (Nd3 (dx3 p) (fold_right Nat.add 0%nat (map dy3 parts))
                     (dz3 p) (hstack_at parts))
      else None
  end.

(** [np.squeeze(a)]: the axes of length 1 are dropped. *)
Definition squeeze (a : nd3) : squeezed :=
  match Nat.eqb (dx3 a) 1, Nat.eqb (dy3 a) 1, Nat.eqb (dz3 a) 1 with
  | false, false, false => Sq3 a
  | false, false, true => Sq2 (Nd2 (dx3 a) (dy3 a) (fun x y => at3 a x y 0))
  | false, true, false => Sq2 (Nd2 (dx3 a) (dz3 a) (fun x z => at3 a x 0 z))
  | true, false, false => Sq2 (Nd2 (dy3 a) (dz3 a) (fun y z => at3 a 0 y z))
  | false, true, true => Sq1 (Nd1 (dx3 a) (fun x => at3 a x 0 0))
  | true, false, true => Sq1 (Nd1 (dy3 a) (fun y => at3 a 0 y 0))
  | true, true, false => Sq1 (Nd1 (dz3 a) (fun z => at3 a 0 0 z))
  | true, true, true => Sq0 (at3 a 0 0 0)
  end.

(** [np.atleast_2d(a)], which [np.vstack] applies to every part. *)
Definition atleast_2d (s : squeezed) : stacked :=
  match s with
  | Sq0 v => Im2 (Nd2 1 1 (fun _ _ => v))
  | Sq1 a => Im2 (Nd2 1 (len1 a) (fun _ j => at1 a j))
  | Sq2 a => Im2 a
  | Sq3 a => Im3 a
  end.

(** The entry of a concatenation along axis 0, 2-d and 3-d. *)
Fixpoint vstack_at2 (parts : list nd2) (i j : nat) : R :=
  match parts with
  | [] => 0
  | p :: rest =>
      if Nat.ltb i (rows2 p) then at2 p i j
      else vstack_at2 rest (i - rows2 p) j
  end.

Fixpoint vstack_at3 (parts : list nd3) (i j k : nat) : R :=
  match parts with
  | [] => 0
  | p :: rest =>
      if Nat.ltb i (dx3 p) then at3 p i j k
      else vstack_at3 rest (i - dx3 p) j k
  end.

(** The parts as 2-d arrays of [cols] columns, when they all are. *)
Definition all_2d (cols : nat) (parts : list stacked) : option (list nd2) :=
  traverse (fun s => match s with
                     | Im2 a => if Nat.eqb (cols2 a) cols then Some a else None
                     | Im3 _ => None
                     end) parts.

(** The parts as 3-d arrays with the last two axes [dy] and [dz], when they
    all are. *)
Definition all_3d (dy dz : nat) (parts : list stacked) : option (list nd3) :=
  traverse (fun s => match s with
                     | Im2 _ => None
                     | Im3 a => if Nat.eqb (dy3 a) dy && Nat.eqb (dz3 a) dz
                                then Some a else None
                     end) parts.

(** [np.vstack(parts)]: the parts, made at least 2-d, one below the other
    along axis 0; numpy raises on an empty list, on parts of different
    ranks and when the other axes differ. *)
Definition vstack (parts : list squeezed) : option stacked :=
  match map atleast_2d parts with
  | [] => None
  | (Im2 p :: _) as ps =>
      match all_2d (cols2 p) ps with
      | None => None
      | Some l =>
          Some (Im2 (Nd2 (fold_right Nat.add 0%nat (map rows2 l)) (cols2 p)
                         (vstack_at2 l)))
      end
  | (Im3 p :: _) as ps =>
      match all_3d (dy3 p) (dz3 p) ps with
      | None => None
      | Some l =>
          Some (Im3 (Nd3 (fold_right Nat.add 0%nat (map dx3 l)) (dy3 p)
                         (dz3 p) (vstack_at3 l)))
      end
  end.

End Np.

(** The line that makes the last row as deep as the first one:
    [rows[-1] = np.dstack((rows[-1], np.zeros(... + (rows[0].shape[2]
    - rows[-1].shape[2],))))].  Indexing an empty list raises, and so does
    [np.zeros] with a negative dimension. *)
Definition pad_last_row (rows : list nd3) : option (list nd3) :=
  match rows with
  | [] => None
  | first :: _ =>
      if Nat.ltb (dz3 first) (dz3 (last rows first)) then None
      else Some (map_last (fun r => Np.pad_depth r (dz3 first - dz3 r)) rows)
  end.

(** One row of the montage:
    [np.squeeze(np.hstack(np.dsplit(row, num_cols)))]. *)
Definition montage_row (num_cols : nat) (row : nd3) : option squeezed :=
  match Np.dsplit row num_cols with
  | None => None
  | Some parts => option_map Np.squeeze (Np.hstack parts)
  end.

(** [montage(vol)]. *)
Definition montage (vol : nd3) : option stacked :=
  let num_cols := ceil_sqrt (dz3 vol) in
  match Np.array_split vol num_cols with
  | None => None
  | Some rows =>
      match pad_last_row rows with
      | None => None
      | Some rows =>
          match traverse (montage_row num_cols) rows with
          | None => None
          | Some tiles => Np.vstack tiles
          end
      end
  end.

(** The rows of a montage of [c] by [c] tiles: [c - 1] slabs of [c] slices
    and a last slab of [l] slices followed by [c - l] blank ones. *)
Definition montage_rows (vol : nd3) (c l : nat) : list nd3 :=
  Np.sections vol 0 (repeat c (c - 1))
  ++ [Np.pad_depth (Np.slab vol ((c - 1) * c) l) (c - l)].

(** The [c] slices of a row side by side, before the squeeze. *)
Definition montage_tile (c : nat) (row : nd3) : nd3 :=
  Nd3 (dx3 row) (c * dy3 row) 1
      (Np.hstack_at (Np.sections row 0 (repeat 1%nat c))).

(** The slice shown by the pixel [(i, j)] of a montage of [c] by [c] tiles
    of a volume. *)
Definition tile_slice (vol : nd3) (c i j : nat) : nat :=
  (i / dx3 vol * c + j / dy3 vol)%nat.

(** A volume of the given shape whose voxel values are the slice numbers. *)
Definition slice_ramp (x y z : nat) : nd3 :=
  Nd3 x y z (fun _ _ k => INR k).

(** ** The two RMS cells in float64 *)

(** The cells "RMS error over time" once more, on binary64 values with the
    roundings of the additions, divisions and square roots.  The sums add
    their entries one after the other, as numpy does on an axis of fewer
    than 8 entries; numpy adds longer axes in blocks, which this model does
    not follow. *)
Module F64.
Import PrimFloat.
Local Open Scope float_scope.

Record vol4 : Type :=
  Vol4 { fx : nat; fy : nat; fz : nat; ft : nat;
         fat : nat -> nat -> nat -> nat -> float }.

(** The number of entries as a float64. *)
Definition of_nat (n : nat) : float :=
  of_uint63 (Uint63.of_Z (BinInt.Z.of_nat n)).

(** The sum over [range(n)], in index order. *)
Fixpoint fsum (n : nat) (f : nat -> float) : float :=
  match n with
  | O => 0
  | S k => fsum k f + f k
  end.

(** [temporal_mean = s1_bold_arr.mean(axis=3)]. *)
Definition temporal_mean (a : vol4) (x y z : nat) : float :=
  fsum (ft a) (fun t => fat a x y z t) / of_nat (ft a).

(** [(temporal_mean - s1_bold_arr)**2] at one voxel and frame. *)
Definition squared_difference (a : vol4) (x y z t : nat) : float :=
  (temporal_mean a x y z - fat a x y z t)
  * (temporal_mean a x y z - fat a x y z t).

(** [np.mean(e)] of a 3-d array: the entries in memory order, the last axis
    running fastest. *)
Definition mean_all (X Y Z : nat) (e : nat -> nat -> nat -> float) : float :=
  fsum (X * Y * Z)
       (fun i => e (Nat.div i (Y * Z)) (Nat.modulo (Nat.div i Z) Y)
                   (Nat.modulo i Z))
  / of_nat (X * Y * Z).

(** The loop over the time points. *)
Definition rms_loop (a : vol4) : list float :=
  range_loop
    (fun t => sqrt (mean_all (fx a) (fy a) (fz a)
                      (fun x y z => squared_difference a x y z t)))
    (ft a) (repeat 0 (ft a)).

(** The broadcast version:
    [np.sqrt(squared_difference.mean(axis=0).mean(axis=0).mean(axis=0))]. *)
Definition rms_broadcast (a : vol4) : list float :=
  map (fun t =>
         sqrt (fsum (fz a) (fun z =>
                 fsum (fy a) (fun y =>
                   fsum (fx a) (fun x => squared_difference a x y z t)
                   / of_nat (fx a))
                 / of_nat (fy a))
               / of_nat (fz a)))
      (seq 0 (ft a)).

(** A volume of shape (3, 2, 1, 2) with integer values: the voxel (0, 0, 0)
    is 0 in both frames, the five others are 0 in the first frame and 2 in
    the second. *)
Definition sample : vol4 :=
  Vol4 3 2 1 2
       (fun x y z t =>
          if Nat.eqb t 1 && negb (Nat.eqb x 0 && Nat.eqb y 0) then 2 else 0).

(** The two neighbouring float64 values 0.9128709291752769 and
    0.9128709291752768. *)
Definition loop_value : float := 0x1.d363d1848dcbfp-1.
Definition broadcast_value : float := 0x1.d363d1848dcbep-1.

End F64.

(** ** The displacement table as a text file *)

(** [np.savetxt] and [np.loadtxt] with the defaults the notebook uses, after
    numpy's documentation: one line per row, the values printed with
    ["%.18e"] and joined by one space; on reading, the text after a ["#"] is
    dropped, lines are split at white space, lines without a value are
    skipped, every line must have as many values as the first one, and the
    result is squeezed.  The values are of a type [F], printed by [fmt] and
    parsed by [parse]. *)
Module Txt.
Import Ascii.











(** What [np.loadtxt] can return: a 0-d, a 1-d or a 2-d array. *)
Inductive loaded (F : Type) : Type :=
| L0 (v : F)
| L1 (l : list F)
| L2 (rows : list (list F)).

Arguments L0 {F} v.
Arguments L1 {F} l.
Arguments L2 {F} rows.

(** [np.squeeze] of the table that was read. *)
Definition squeeze {F : Type} (rows : list (list F)) : loaded F :=
  match rows with
  | [] => L1 []
  | [[v]] => L0 v
  | [row] => L1 row
  | _ :: _ :: _ =>
      if forallb (fun r => Nat.eqb (length r) 1) rows
      then L1 (concat rows)
      else L2 rows
  end.



(** Three float64 values and their ["%.18e"] texts. *)
Inductive sample : Type := zero | one | two_and_a_half.

Import String.



End Txt.

(** * Properties *)

(** ** Sums *)

Lemma sum_n_ext (n : nat) (f g : nat -> R) :
  (forall k, (k < n)%nat -> f k = g k) -> sum_n n f = sum_n n g.
Proof.
  induction n as [|n IH]; intros H; simpl; [reflexivity|].
  rewrite IH, H by (intros; auto with arith). reflexivity.
Qed.

Lemma sum_n_scal (n : nat) (c : R) (f : nat -> R) :
  sum_n n (fun k => f k * c) = sum_n n f * c.
Proof.
  induction n as [|n IH]; simpl; [ring|]. rewrite IH. ring.
Qed.

Lemma sum_n_plus (n : nat) (f g : nat -> R) :
  sum_n n (fun k => f k + g k) = sum_n n f + sum_n n g.
Proof.
  induction n as [|n IH]; simpl; [ring|]. rewrite IH. ring.
Qed.

Lemma sum_n_zero (n : nat) : sum_n n (fun _ => 0) = 0.
Proof.
  induction n as [|n IH]; simpl; [reflexivity|]. rewrite IH. ring.
Qed.

Lemma sum_n_swap (m n : nat) (f : nat -> nat -> R) :
  sum_n m (fun i => sum_n n (fun j => f i j))
  = sum_n n (fun j => sum_n m (fun i => f i j)).
Proof.
  induction m as [|m IH]; simpl.
  - symmetry. apply sum_n_zero.
  - rewrite IH, sum_n_plus. reflexivity.
Qed.

(** ** Loops that fill an array *)

Lemma set_nth_length {A : Type} (i : nat) (v : A) (l : list A) :
  length (set_nth i v l) = length l.
Proof.
  revert i; induction l as [|x l IH]; intros [|i]; simpl; auto.
Qed.

Lemma set_nth_app {A : Type} (pre : list A) (v x : A) (rest : list A) :
  set_nth (length pre) v (pre ++ x :: rest) = pre ++ v :: rest.
Proof.
  induction pre as [|p pre IH]; simpl; [reflexivity|]. now rewrite IH.
Qed.

Lemma fill_from {A B : Type} (f : A -> B) (l : list A) :
  forall (pre rest : list B),
    (length l <= length rest)%nat ->
    fold_left (fun acc ix => set_nth (fst ix) (f (snd ix)) acc)
              (combine (seq (length pre) (length l)) l) (pre ++ rest)
    = pre ++ map f l ++ skipn (length l) rest.
Proof.
  induction l as [|a l IH]; intros pre rest Hlen; simpl.
  - reflexivity.
  - destruct rest as [|r rest]; simpl in Hlen; [lia|].
    rewrite set_nth_app.
    replace (pre ++ f a :: rest) with ((pre ++ [f a]) ++ rest)
      by (rewrite <- app_assoc; reflexivity).
    replace (S (length pre)) with (length (pre ++ [f a]))
      by (rewrite length_app; simpl; lia).
    rewrite IH by lia. rewrite <- app_assoc. reflexivity.
Qed.

Lemma fill_loop_eq {A B : Type} (f : A -> B) (l : list A) (out : list B) :
  (length l <= length out)%nat ->
  fill_loop f l out = map f l ++ skipn (length l) out.
Proof.
  intros H. unfold fill_loop, enumerate.
  apply (fill_from f l [] out H).
Qed.

Lemma range_from {B : Type} (g : nat -> B) (n : nat) :
  forall (pre rest : list B),
    (n <= length rest)%nat ->
    fold_left (fun acc t => set_nth t (g t) acc) (seq (length pre) n)
              (pre ++ rest)
    = pre ++ map g (seq (length pre) n) ++ skipn n rest.
Proof.
  induction n as [|n IH]; intros pre rest Hlen; simpl.
  - reflexivity.
  - destruct rest as [|r rest]; simpl in Hlen; [lia|].
    rewrite set_nth_app.
    replace (pre ++ g (length pre) :: rest)
      with ((pre ++ [g (length pre)]) ++ rest)
      by (rewrite <- app_assoc; reflexivity).
    replace (S (length pre)) with (length (pre ++ [g (length pre)]))
      by (rewrite length_app; simpl; lia).
    rewrite IH by lia. rewrite <- app_assoc. simpl.
    rewrite length_app. simpl.
    replace (length pre + 1)%nat with (S (length pre)) by lia.
    reflexivity.
Qed.

Lemma range_loop_eq {B : Type} (g : nat -> B) (n : nat) (out : list B) :
  length out = n -> range_loop g n out = map g (seq 0 n).
Proof.
  intros H. unfold range_loop.
  pose proof (range_from g n [] out) as E. simpl in E.
  rewrite E by lia. rewrite skipn_all2 by lia. apply app_nil_r.
Qed.

Lemma zeros_length (n : nat) : length (zeros n) = n.
Proof. apply repeat_length. Qed.

Lemma fill_loop_nth {A B : Type} (f : A -> B) (l : list A) (out : list B)
    (i : nat) (da : A) (db : B) :
  (length l <= length out)%nat -> (i < length l)%nat ->
  nth i (fill_loop f l out) db = f (nth i l da).
Proof.
  intros Hlen Hi. rewrite fill_loop_eq by assumption.
  rewrite app_nth1 by (rewrite length_map; assumption).
  rewrite (nth_indep _ db (f da)) by (rewrite length_map; assumption).
  apply map_nth.
Qed.

(** ** The displacement summary *)

Ltac unfold_displacement :=
  unfold displacement, Formula.displacement, Formula.E, Formula.trace_AtA,
    Formula.shift, T_error, Mat.msqrt, Mat.scalar_add, Mat.mul, Mat.T,
    Mat.trace, Mat.block, Mat.column, Mat.add, Mat.sub;
  simpl.

(** The loop body computes the formula on the entries of the error
    transform. *)
Lemma displacement_formula (Rad : R) (xc : vec3) (ref_affine t_affine : affine) :
  displacement Rad xc ref_affine t_affine
  = Formula.displacement Rad xc ref_affine t_affine.
Proof.
  unfold_displacement. f_equal. field.
Qed.

Lemma mean_displacement_nth (Rad : R) (xc : vec3) (ref_affine : affine)
    (transforms : list affine) (n i : nat) (d : affine) :
  (i < n)%nat -> (i < length transforms)%nat ->
  nth i (mean_displacement Rad xc ref_affine transforms n) 0
  = displacement Rad xc ref_affine (nth i transforms d).
Proof.
  intros Hn Hl. unfold mean_displacement.
  rewrite (fill_loop_nth _ _ _ _ d).
  - now rewrite nth_firstn, (proj2 (Nat.ltb_lt i n) Hn).
  - rewrite zeros_length, length_firstn. lia.
  - rewrite length_firstn. lia.
Qed.

(** C1: for every frame [i] written by the loop, the stored value is the
    square root of [(r^2/5) trace(A^T A) + (t + A xc)^T (t + A xc)], where
    [A] and [t] are the top-left 3x3 and top-right 3x1 blocks of
    [E = R_ref - R_ref . T_i]; this holds for the one-subject loop and for
    every row of the all-subjects table, and the notebook runs it with
    [r = 70] and [xc = (0, 0, 0)]. *)
Theorem C1_displacement_formula :
  (forall (r : R) (xc : vec3) (R_ref : affine) (transforms : list affine)
          (n i : nat),
      (i < n)%nat -> (i < length transforms)%nat ->
      nth i (mean_displacement r xc R_ref transforms n) 0
      = Formula.displacement r xc R_ref (nth i transforms (Mat.eye 4)))
  /\ (forall (r : R) (xc : vec3) (subjects : list (affine * list affine))
             (n s i : nat),
      (s < length subjects)%nat -> (i < n)%nat ->
      (i < length (snd (nth s subjects (Mat.eye 4, []))))%nat ->
      nth i (nth s (mean_displacement_all r xc subjects n) []) 0
      = Formula.displacement r xc (fst (nth s subjects (Mat.eye 4, [])))
          (nth i (snd (nth s subjects (Mat.eye 4, []))) (Mat.eye 4)))
  /\ R_default = 70
  /\ (forall i, (i < 3)%nat -> xc_default.[i, 0] = 0).
Proof.
  split; [|split; [|split]].
  - intros r xc R_ref transforms n i Hn Hl.
    rewrite (mean_displacement_nth _ _ _ _ _ _ (Mat.eye 4)) by assumption.
    apply displacement_formula.
  - intros r xc subjects n s i Hs Hn Hl. unfold mean_displacement_all.
    rewrite (fill_loop_nth _ _ _ _ (Mat.eye 4, []))
      by (rewrite ?repeat_length; auto).
    rewrite (mean_displacement_nth _ _ _ _ _ _ (Mat.eye 4)) by assumption.
    apply displacement_formula.
  - reflexivity.
  - intros [|[|[|i]]] Hi; try reflexivity. lia.
Qed.

(** C1 at one subject with the two transforms [identity, translation by
    (3, 4, 0)] under the identity reference. *)
Lemma C1_displacement_formula_witness :
  nth 1 (mean_displacement R_default xc_default (Mat.eye 4)
           [Mat.eye 4; translation 3 4 0] 2) 0
  = Formula.displacement R_default xc_default (Mat.eye 4) (translation 3 4 0).
Proof.
  apply (proj1 C1_displacement_formula R_default xc_default (Mat.eye 4)
           [Mat.eye 4; translation 3 4 0] 2%nat 1%nat); simpl; lia.
Defined.

(** C2: when the per-frame transform is the identity affine the loop body
    returns 0, for every reference affine (invertible or not), every radius
    and every center. *)
Theorem C2_identity_zero (r : R) (xc : vec3) (R_ref : affine) :
  displacement r xc R_ref (Mat.eye 4) = 0.
Proof.
  rewrite displacement_formula.
  unfold Formula.displacement, Formula.E, Formula.trace_AtA, Formula.shift,
    Mat.eye.
  simpl.
  match goal with |- sqrt ?x = 0 => replace x with 0 by field end.
  apply sqrt_0.
Qed.

(** *** When the summary vanishes *)

Lemma sumsq3_nonneg (x y z : R) : 0 <= x * x + y * y + z * z.
Proof. nra. Qed.

Lemma sumsq3_zero (x y z : R) :
  x * x + y * y + z * z = 0 -> x = 0 /\ y = 0 /\ z = 0.
Proof. intros H. repeat split; nra. Qed.

Lemma trace_AtA_nonneg (e : nat -> nat -> R) : 0 <= Formula.trace_AtA e.
Proof.
  unfold Formula.trace_AtA.
  pose proof (sumsq3_nonneg (e 0 0) (e 1 0) (e 2 0))%nat.
  pose proof (sumsq3_nonneg (e 0 1) (e 1 1) (e 2 1))%nat.
  pose proof (sumsq3_nonneg (e 0 2) (e 1 2) (e 2 2))%nat.
  lra.
Qed.

Lemma radicand_nonneg (r : R) (xc : vec3) (e : nat -> nat -> R) :
  0 <= r * r / 5 * Formula.trace_AtA e
       + (Formula.shift e xc 0 * Formula.shift e xc 0
          + Formula.shift e xc 1 * Formula.shift e xc 1
          + Formula.shift e xc 2 * Formula.shift e xc 2).
Proof.
  pose proof (trace_AtA_nonneg e) as Ht.
  pose proof (sumsq3_nonneg (Formula.shift e xc 0) (Formula.shift e xc 1)
                (Formula.shift e xc 2)) as Hs.
  assert (0 <= r * r / 5) by nra.
  assert (0 <= r * r / 5 * Formula.trace_AtA e) by (apply Rmult_le_pos; lra).
  lra.
Qed.

(** Case analysis on an index below a literal bound. *)
Ltac below i := repeat (destruct i as [|i]; [|try (exfalso; lia)]).

Lemma below3 (P : nat -> Prop) :
  P 0%nat -> P 1%nat -> P 2%nat -> forall i, (i < 3)%nat -> P i.
Proof. intros H0 H1 H2 [|[|[|i]]] Hi; auto; lia. Qed.

Lemma below4 (P : nat -> Prop) :
  P 0%nat -> P 1%nat -> P 2%nat -> P 3%nat -> forall i, (i < 4)%nat -> P i.
Proof. intros H0 H1 H2 H3 [|[|[|[|i]]]] Hi; auto; lia. Qed.

(** The summary is zero exactly when the top three rows of the error
    transform are zero. *)
Lemma displacement_zero_iff (r : R) (xc : vec3) (ref_affine t_affine : affine) :
  r <> 0 ->
  displacement r xc ref_affine t_affine = 0
  <-> (forall i j, (i < 3)%nat -> (j < 4)%nat ->
         Formula.E ref_affine t_affine i j = 0).
Proof.
  intros Hr. rewrite displacement_formula. unfold Formula.displacement.
  set (e := Formula.E ref_affine t_affine).
  pose proof (trace_AtA_nonneg e) as Ht.
  pose proof (sumsq3_nonneg (Formula.shift e xc 0) (Formula.shift e xc 1)
                (Formula.shift e xc 2)) as Hs.
  assert (Hc : 0 < r * r / 5) by nra.
  split.
  - intros H0. apply sqrt_eq_0 in H0; [|apply radicand_nonneg].
    assert (Hp : 0 <= r * r / 5 * Formula.trace_AtA e)
      by (apply Rmult_le_pos; lra).
    assert (HT : Formula.trace_AtA e = 0).
    { assert (r * r / 5 * Formula.trace_AtA e = 0) as Hz by lra.
      apply Rmult_integral in Hz. destruct Hz; lra. }
    assert (HS : Formula.shift e xc 0 * Formula.shift e xc 0
                 + Formula.shift e xc 1 * Formula.shift e xc 1
                 + Formula.shift e xc 2 * Formula.shift e xc 2 = 0).
    { rewrite HT in H0. lra. }
    apply sumsq3_zero in HS. destruct HS as (S0 & S1 & S2).
    unfold Formula.trace_AtA in HT.
    pose proof (sumsq3_nonneg (e 0 0) (e 1 0) (e 2 0))%nat as N0.
    pose proof (sumsq3_nonneg (e 0 1) (e 1 1) (e 2 1))%nat as N1.
    pose proof (sumsq3_nonneg (e 0 2) (e 1 2) (e 2 2))%nat as N2.
    assert (C0 : e.[0, 0] * e.[0, 0] + e.[1, 0] * e.[1, 0]
                 + e.[2, 0] * e.[2, 0] = 0) by lra.
    assert (C1 : e.[0, 1] * e.[0, 1] + e.[1, 1] * e.[1, 1]
                 + e.[2, 1] * e.[2, 1] = 0) by lra.
    assert (C2 : e.[0, 2] * e.[0, 2] + e.[1, 2] * e.[1, 2]
                 + e.[2, 2] * e.[2, 2] = 0) by lra.
    apply sumsq3_zero in C0, C1, C2.
    destruct C0 as (A00 & A10 & A20), C1 as (A01 & A11 & A21),
             C2 as (A02 & A12 & A22).
    unfold Formula.shift in S0, S1, S2.
    rewrite A00, A01, A02 in S0. rewrite A10, A11, A12 in S1.
    rewrite A20, A21, A22 in S2.
    intros i j Hi. revert j. revert i Hi.
    apply (below3 (fun i => forall j, (j < 4)%nat -> e i j = 0));
      apply below4; auto; lra.
  - intros H.
    assert (HT : Formula.trace_AtA e = 0).
    { unfold Formula.trace_AtA. rewrite !H by lia. ring. }
    assert (HS : forall i, (i < 3)%nat -> Formula.shift e xc i = 0).
    { intros i Hi. unfold Formula.shift. rewrite !H by lia. ring. }
    rewrite HT, !HS by lia.
    replace (r * r / 5 * 0 + (0 * 0 + 0 * 0 + 0 * 0)) with 0 by lra.
    apply sqrt_0.
Qed.

Lemma E_T_error (ref_affine t_affine : affine) (i j : nat) :
  Formula.E ref_affine t_affine i j = T_error ref_affine t_affine i j.
Proof.
  unfold Formula.E, T_error, Mat.sub, Mat.mul. simpl. ring.
Qed.

Lemma scaling_invertible (s : R) : s <> 0 -> invertible (scaling s).
Proof.
  intros Hs. exists (scaling (/ s)).
  split; unfold Mat.eqm; intros i j Hi Hj; below i; below j;
    unfold Mat.mul, scaling, Mat.of_rows, Mat.eye; simpl;
    field; assumption.
Qed.

(** C3, counterexample: the reference affine with linear part
    [diag(2, 2, 2)] is invertible, and taking it as the per-frame transform
    gives a summary that is not 0. *)
Lemma C3_reference_not_zero :
  invertible (scaling 2)
  /\ displacement R_default xc_default (scaling 2) (scaling 2) <> 0.
Proof.
  split.
  - apply scaling_invertible. lra.
  - intros H.
    assert (Hr : R_default <> 0) by (unfold R_default; lra).
    pose proof (proj1 (displacement_zero_iff _ _ _ _ Hr) H 0%nat 0%nat
                  ltac:(lia) ltac:(lia)) as H00. clear H. rename H00 into H.
    unfold Formula.E, scaling, Mat.of_rows in H. simpl in H. lra.
Qed.

(** C3, amended: with the per-frame transform equal to the reference affine
    and a radius other than 0, the summary is 0 exactly when
    [R_ref . R_ref] and [R_ref] have the same top three rows (as for the
    identity reference), for every center. *)
Theorem C3_reference_as_transform (r : R) (xc : vec3) (R_ref : affine) :
  r <> 0 ->
  displacement r xc R_ref R_ref = 0
  <-> (forall i j, (i < 3)%nat -> (j < 4)%nat ->
         Mat.mul R_ref R_ref i j = R_ref i j).
Proof.
  intros Hr. rewrite (displacement_zero_iff r xc R_ref R_ref Hr).
  split; intros H i j Hi Hj; specialize (H i j Hi Hj).
  - rewrite E_T_error in H. unfold T_error, Mat.sub in H. lra.
  - rewrite E_T_error. unfold T_error, Mat.sub. lra.
Qed.

(** C3 at the identity reference with the radius of the notebook. *)
Lemma C3_reference_as_transform_witness :
  displacement R_default xc_default (Mat.eye 4) (Mat.eye 4) = 0
  <-> (forall i j, (i < 3)%nat -> (j < 4)%nat ->
         Mat.mul (Mat.eye 4) (Mat.eye 4) i j = Mat.eye 4 i j).
Proof.
  apply (C3_reference_as_transform R_default xc_default (Mat.eye 4)).
  unfold R_default. lra.
Defined.

(** *** Pure translations *)

Lemma displacement_translation (r : R) (xc : vec3) (ref_affine : affine)
    (d0 d1 d2 : R) :
  displacement r xc ref_affine (translation d0 d1 d2)
  = norm3 (lin_apply ref_affine d0 d1 d2 0) (lin_apply ref_affine d0 d1 d2 1)
          (lin_apply ref_affine d0 d1 d2 2).
Proof.
  rewrite displacement_formula.
  unfold Formula.displacement, Formula.E, Formula.trace_AtA, Formula.shift,
    translation, Mat.of_rows, norm3, lin_apply.
  simpl. f_equal. field.
Qed.






(** *** Dependence on the radius *)

(** For any transform the summary does not decrease when the radius
    grows. *)
Lemma displacement_mono (xc : vec3) (ref_affine t_affine : affine) (r1 r2 : R) :
  0 <= r1 -> r1 <= r2 ->
  displacement r1 xc ref_affine t_affine
  <= displacement r2 xc ref_affine t_affine.
Proof.
  intros H1 H12. rewrite !displacement_formula. unfold Formula.displacement.
  apply sqrt_le_1_alt.
  pose proof (trace_AtA_nonneg (Formula.E ref_affine t_affine)) as Ht.
  assert (r1 * r1 / 5 <= r2 * r2 / 5) by nra.
  apply Rplus_le_compat_r. apply Rmult_le_compat_r; assumption.
Qed.

Lemma displacement_mono_strict (xc : vec3) (ref_affine t_affine : affine)
    (r1 r2 : R) :
  0 <= r1 -> r1 < r2 ->
  Formula.trace_AtA (Formula.E ref_affine t_affine) <> 0 ->
  displacement r1 xc ref_affine t_affine
  < displacement r2 xc ref_affine t_affine.
Proof.
  intros H1 H12 Hne. rewrite !displacement_formula.
  unfold Formula.displacement.
  apply sqrt_lt_1_alt. split; [apply radicand_nonneg|].
  pose proof (trace_AtA_nonneg (Formula.E ref_affine t_affine)) as Ht.
  assert (r1 * r1 / 5 < r2 * r2 / 5) by nra.
  apply Rplus_lt_compat_r. apply Rmult_lt_compat_r; [lra|assumption].
Qed.

(** A rotation about [xc] leaves no translation at [xc]: [t + A . xc] is
    zero. *)
Lemma rotation_shift_zero (xc : vec3) (ref_affine t_affine : affine) (i : nat) :
  rotation_about xc t_affine ->
  Formula.shift (Formula.E ref_affine t_affine) xc i = 0.
Proof.
  intros (_ & Hcol & Hrow & Hone).
  unfold Formula.shift, Formula.E.
  rewrite Hone, !Hrow, !Hcol by lia.
  unfold lin_apply. ring.
Qed.

(** C5: for a per-frame transform that is a rotation about the center [xc],
    the summary is [r] times a factor that does not depend on [r]; so over
    the positive radii it never decreases when [r] grows, and it increases
    strictly unless the linear part of the error transform is zero. *)
Theorem C5_rotation_monotone (xc : vec3) (R_ref T_i : affine) :
  rotation_about xc T_i ->
  (forall r : R, 0 <= r ->
     displacement r xc R_ref T_i
     = r * sqrt (Formula.trace_AtA (Formula.E R_ref T_i) / 5))
  /\ (forall r1 r2 : R, 0 < r1 -> r1 <= r2 ->
        displacement r1 xc R_ref T_i <= displacement r2 xc R_ref T_i)
  /\ (forall r1 r2 : R, 0 < r1 -> r1 < r2 ->
        Formula.trace_AtA (Formula.E R_ref T_i) <> 0 ->
        displacement r1 xc R_ref T_i < displacement r2 xc R_ref T_i).
Proof.
  intros Hrot. split; [|split].
  - intros r Hr. rewrite displacement_formula. unfold Formula.displacement.
    rewrite !(rotation_shift_zero xc R_ref T_i _ Hrot).
    pose proof (trace_AtA_nonneg (Formula.E R_ref T_i)) as Ht.
    rewrite <- (sqrt_square r) at 3 by assumption.
    rewrite <- sqrt_mult_alt by nra. f_equal. field.
  - intros r1 r2 H1 H12. apply displacement_mono; lra.
  - intros r1 r2 H1 H12 Hne. apply displacement_mono_strict; auto; lra.
Qed.

Lemma quarter_turn_rotation : rotation_about xc_default quarter_turn.
Proof.
  unfold rotation_about, orthogonal_lin, lin_apply.
  repeat split.
  - intros i j Hi Hj. below i; below j;
      unfold quarter_turn, Mat.of_rows; simpl; lra.
  - intros i Hi. below i;
      unfold quarter_turn, xc_default, Mat.T, Mat.of_rows; simpl; lra.
  - intros j Hj. below j; reflexivity.
Qed.

(** C5 at the quarter turn about the origin under the identity reference,
    between the radii 1 and 2. *)
Lemma C5_rotation_monotone_witness :
  displacement 1 xc_default (Mat.eye 4) quarter_turn
  <= displacement 2 xc_default (Mat.eye 4) quarter_turn.
Proof.
  apply (proj1 (proj2 (C5_rotation_monotone xc_default (Mat.eye 4)
                         quarter_turn quarter_turn_rotation)) 1 2); lra.
Defined.

(** ** Cross-subject aggregation *)

Lemma sum_n_shift (n : nat) (f : nat -> R) :
  sum_n (S n) f = f 0%nat + sum_n n (fun k => f (S k)).
Proof.
  induction n as [|n IH].
  - simpl. ring.
  - change (sum_n (S (S n)) f) with (sum_n (S n) f + f (S n)).
    rewrite IH. simpl. ring.
Qed.

Lemma sum_list_nth (l : list R) :
  sum_list l = sum_n (length l) (fun j => nth j l 0).
Proof.
  induction l as [|x l IH]; [reflexivity|].
  change (length (x :: l)) with (S (length l)).
  rewrite sum_n_shift. simpl. rewrite IH. reflexivity.
Qed.

Lemma diff_cons2 (x y : R) (tl : list R) :
  diff (x :: y :: tl) = (y - x) :: diff (y :: tl).
Proof. reflexivity. Qed.

Lemma diff_length (row : list R) :
  length (diff row) = (length row - 1)%nat.
Proof.
  induction row as [|x row IH]; [reflexivity|].
  destruct row as [|y tl]; [reflexivity|].
  rewrite diff_cons2. simpl length in *. rewrite IH. lia.
Qed.

Lemma diff_nth (row : list R) :
  forall j, (S j < length row)%nat ->
    nth j (diff row) 0 = nth (S j) row 0 - nth j row 0.
Proof.
  induction row as [|x row IH]; intros j Hj; [simpl in Hj; lia|].
  destruct row as [|y tl]; [simpl in Hj; lia|].
  rewrite diff_cons2. destruct j as [|j]; [reflexivity|].
  change (nth (S j) ((y - x) :: diff (y :: tl)) 0)
    with (nth j (diff (y :: tl)) 0).
  rewrite IH by (simpl in *; lia). reflexivity.
Qed.

Lemma root_sum_square_diff_eq (row : list R) :
  sqrt (sum_list (map (fun d => d ^ 2) (diff row)))
  = root_sum_square_diff row.
Proof.
  unfold root_sum_square_diff. f_equal.
  rewrite sum_list_nth, length_map, diff_length.
  apply sum_n_ext. intros k Hk.
  rewrite (nth_indep _ 0 (0 ^ 2)) by (rewrite length_map, diff_length; lia).
  rewrite (map_nth (fun d => d ^ 2)).
  rewrite diff_nth by lia. reflexivity.
Qed.

Lemma md_diff_rms_eq (table : list (list R)) :
  md_diff_rms table = map root_sum_square_diff table.
Proof.
  unfold md_diff_rms, md_diff. rewrite !map_map.
  apply map_ext. intros row. apply root_sum_square_diff_eq.
Qed.

Lemma nonzero_from_In (mask : list bool) :
  forall s i,
    In i (nonzero_from s mask)
    <-> (s <= i)%nat /\ nth (i - s) mask false = true.
Proof.
  induction mask as [|b mask IH]; intros s i; simpl.
  - split; [tauto|]. intros [_ H]. destruct (i - s)%nat; discriminate.
  - rewrite in_app_iff, IH. split.
    + intros [H|[Hle H]].
      * destruct b; simpl in H; [|tauto]. destruct H as [<-|[]].
        rewrite Nat.sub_diag. split; [lia|reflexivity].
      * split; [lia|]. replace (i - s)%nat with (S (i - S s)) by lia.
        assumption.
    + intros [Hle H]. destruct (i - s)%nat as [|k] eqn:E.
      * left. subst b. simpl. left. lia.
      * right. split; [lia|]. replace (i - S s)%nat with k by lia.
        assumption.
Qed.

Lemma nonzero_In (mask : list bool) (i : nat) :
  In i (nonzero mask) <-> nth i mask false = true.
Proof.
  unfold nonzero. rewrite nonzero_from_In, Nat.sub_0_r.
  split; [tauto|]. intros H. split; [lia|assumption].
Qed.

Lemma nth_map_mask {A : Type} (p : A -> bool) (l : list A) (i : nat) (d : A) :
  nth i (map p l) false = true <-> (i < length l)%nat /\ p (nth i l d) = true.
Proof.
  split.
  - intros H. destruct (Nat.lt_ge_cases i (length l)) as [Hi|Hi].
    + split; [assumption|].
      rewrite (nth_indep _ false (p d)) in H by (rewrite length_map; lia).
      now rewrite map_nth in H.
    + rewrite nth_overflow in H by (rewrite length_map; lia). discriminate.
  - intros [Hi H].
    rewrite (nth_indep _ false (p d)) by (rewrite length_map; lia).
    now rewrite map_nth.
Qed.

Lemma Rge_b_true (x y : R) : Rge_b x y = true <-> x >= y.
Proof.
  unfold Rge_b. destruct (Rge_dec x y); split; auto; discriminate.
Qed.

(** C6: the aggregation takes (a) the first difference of every subject's
    curve, (b) the square root of the sum of the squares of these
    differences as the subject's summary, and (c) flags exactly the subjects
    whose summary is at least the threshold, 2.5 in the notebook. *)
Theorem C6_flagged_subjects (max_disp : R) (table : list (list R)) :
  (forall i j, (i < length table)%nat ->
     (S j < length (nth i table []))%nat ->
     nth j (nth i (md_diff table) []) 0
     = nth (S j) (nth i table []) 0 - nth j (nth i table []) 0)
  /\ (forall i, (i < length table)%nat ->
        length (nth i (md_diff table) [])
        = (length (nth i table []) - 1)%nat)
  /\ md_diff_rms table = map root_sum_square_diff table
  /\ (forall i,
        In i (bad_sub_inds max_disp table)
        <-> (i < length table)%nat
            /\ root_sum_square_diff (nth i table []) >= max_disp)
  /\ max_disp_default = 2.5.
Proof.
  assert (Hrow : forall i, nth i (md_diff table) [] = diff (nth i table [])).
  { intros i. unfold md_diff. change (@nil R) with (diff []) at 1.
    apply map_nth. }
  split; [|split; [|split; [|split]]].
  - intros i j _ Hj. rewrite Hrow. apply diff_nth. assumption.
  - intros i _. rewrite Hrow. apply diff_length.
  - apply md_diff_rms_eq.
  - intros i. unfold bad_sub_inds.
    rewrite nonzero_In, md_diff_rms_eq, (nth_map_mask _ _ _ 0), length_map.
    rewrite Rge_b_true.
    split; intros [Hi H]; (split; [assumption|]).
    + rewrite (nth_indep _ 0 (root_sum_square_diff [])) in H
        by (rewrite length_map; assumption).
      now rewrite map_nth in H.
    + rewrite (nth_indep _ 0 (root_sum_square_diff []))
        by (rewrite length_map; assumption).
      now rewrite map_nth.
  - reflexivity.
Qed.

(** C6 on a table of two subjects: the first one, whose curve jumps by 3,
    is flagged at the threshold of the notebook. *)
Lemma C6_flagged_subjects_witness :
  In 0%nat (bad_sub_inds max_disp_default [[0; 3; 3]; [0; 1; 1]]).
Proof.
  apply (proj1 (proj2 (proj2 (proj2
           (C6_flagged_subjects max_disp_default [[0; 3; 3]; [0; 1; 1]]))))).
  split; [simpl; lia|].
  unfold root_sum_square_diff, max_disp_default. simpl.
  apply Rle_ge. rewrite <- (sqrt_square 2.5) by lra.
  apply sqrt_le_1_alt. lra.
Defined.

(** ** The common number of frames *)

Lemma num_timepoints_snd (dims : list shape4) :
  num_timepoints dims = option_map snd (min_axis0 dims).
Proof.
  unfold num_timepoints. destruct (min_axis0 dims) as [[[[a b] c] d]|];
    reflexivity.
Qed.

Lemma min_shape_snd (s s' : shape4) :
  snd (min_shape s s') = Nat.min (snd s) (snd s').
Proof. destruct s as [[[a b] c] d], s' as [[[a' b'] c'] d']. reflexivity. Qed.

Lemma fold_min_shape_le (rest : list shape4) :
  forall s,
    (snd (fold_left min_shape rest s) <= snd s)%nat
    /\ (forall s', In s' rest -> (snd (fold_left min_shape rest s) <= snd s')%nat).
Proof.
  induction rest as [|r rest IH]; intros s; simpl.
  - split; [lia|tauto].
  - destruct (IH (min_shape s r)) as [H1 H2].
    rewrite min_shape_snd in H1. split; [lia|].
    intros s' [<-|Hin]; [lia|auto].
Qed.

Lemma fold_min_shape_in (rest : list shape4) :
  forall s,
    snd (fold_left min_shape rest s) = snd s
    \/ exists s', In s' rest /\ snd (fold_left min_shape rest s) = snd s'.
Proof.
  induction rest as [|r rest IH]; intros s; simpl.
  - now left.
  - destruct (IH (min_shape s r)) as [H|(s' & Hin & H)].
    + rewrite min_shape_snd in H.
      destruct (Nat.min_dec (snd s) (snd r)) as [E|E]; rewrite E in H.
      * now left.
      * right. exists r. split; [now left|assumption].
    + right. exists s'. split; [now right|assumption].
Qed.

(** The number of frames is the least of the temporal sizes. *)
Lemma num_timepoints_min (dims : list shape4) (n : nat) :
  num_timepoints dims = Some n ->
  (exists s, In s dims /\ snd s = n)
  /\ (forall s, In s dims -> (n <= snd s)%nat).
Proof.
  rewrite num_timepoints_snd. destruct dims as [|s rest]; simpl; [discriminate|].
  intros [= <-].
  destruct (fold_min_shape_le rest s) as [H1 H2].
  split.
  - destruct (fold_min_shape_in rest s) as [H|(s' & Hin & H)].
    + exists s. split; [now left|now symmetry].
    + exists s'. split; [now right|now symmetry].
  - intros s' [<-|Hin]; auto.
Qed.

Lemma rms_broadcast_length (bold_arr : nd4) :
  length (Nd.to_list (rms_broadcast bold_arr)) = dt4 bold_arr.
Proof.
  unfold Nd.to_list. rewrite length_map, length_seq. reflexivity.
Qed.

(** C7: the number of frames used downstream is the minimum of the
    subjects' temporal sizes (164 for the sizes 170, 164 and 168), and every
    row of the RMS table is the subject's RMS curve cut to that length. *)
Theorem C7_common_length :
  (forall (subjects : list nd4) (n : nat),
     num_timepoints (dims_all subjects) = Some n ->
     (exists s, In s subjects /\ dt4 s = n)
     /\ (forall s, In s subjects -> (n <= dt4 s)%nat)
     /\ exists table,
          rms_all subjects = Some table
          /\ length table = length subjects
          /\ forall i d, (i < length subjects)%nat ->
               nth i table []
               = firstn n (Nd.to_list (rms_broadcast (nth i subjects d)))
               /\ length (nth i table []) = n)
  /\ (forall subjects : list nd4,
        subjects <> [] -> exists n, num_timepoints (dims_all subjects) = Some n)
  /\ (forall x1 y1 z1 x2 y2 z2 x3 y3 z3 : nat,
        num_timepoints [(x1, y1, z1, 170); (x2, y2, z2, 164); (x3, y3, z3, 168)]%nat
        = Some 164%nat).
Proof.
  split; [|split].
  - intros subjects n Hn.
    destruct (num_timepoints_min _ _ Hn) as [(s & Hin & Hs) Hle].
    unfold dims_all in Hin. apply in_map_iff in Hin.
    destruct Hin as (a & <- & Hin).
    assert (Hall : forall a', In a' subjects -> (n <= dt4 a')%nat).
    { intros a' Ha'. apply (Hle (get_shape a')). unfold dims_all.
      apply in_map. assumption. }
    split; [exists a; split; assumption|]. split; [assumption|].
    unfold rms_all. rewrite Hn. eexists. split; [reflexivity|].
    rewrite fill_loop_eq by (rewrite repeat_length; lia).
    rewrite skipn_all2 by (rewrite repeat_length; lia).
    rewrite app_nil_r, length_map. split; [reflexivity|].
    intros i d Hi.
    rewrite (nth_indep _ [] (rms_row n d)) by (rewrite length_map; assumption).
    rewrite map_nth. unfold rms_row. split; [reflexivity|].
    rewrite length_firstn, rms_broadcast_length.
    pose proof (Hall (nth i subjects d) (nth_In _ _ Hi)). lia.
  - intros [|a subjects] Hne; [congruence|].
    rewrite num_timepoints_snd. simpl. eexists. reflexivity.
  - intros. reflexivity.
Qed.

(** C7 on three volumes of 170, 164 and 168 frames. *)
Lemma C7_common_length_witness :
  exists table,
    rms_all [const_volume 2 2 1 170 1; const_volume 2 2 1 164 1;
             const_volume 2 2 1 168 1] = Some table
    /\ length table = 3%nat
    /\ forall i d, (i < 3)%nat ->
         nth i table []
         = firstn 164
             (Nd.to_list
                (rms_broadcast
                   (nth i [const_volume 2 2 1 170 1; const_volume 2 2 1 164 1;
                           const_volume 2 2 1 168 1] d)))
         /\ length (nth i table []) = 164%nat.
Proof.
  apply (proj1 C7_common_length
           [const_volume 2 2 1 170 1; const_volume 2 2 1 164 1;
            const_volume 2 2 1 168 1] 164%nat).
  reflexivity.
Defined.

(** ** The loop and the broadcast computation of the RMS error *)

Lemma bdim_same (d : nat) : bdim d d = d.
Proof. unfold bdim. destruct (Nat.eqb d 1); reflexivity. Qed.

Lemma bidx_lt (d i : nat) : (i < d)%nat -> bidx d i = i.
Proof.
  unfold bidx. destruct (Nat.eqb_spec d 1); intros H; [lia|reflexivity].
Qed.

(** The mean of all the entries of a block is the mean over the third axis
    of the means over the second axis of the means over the first axis. *)
Lemma mean_chain (X Y Z : nat) (F : nat -> nat -> nat -> R) :
  sum_n X (fun x => sum_n Y (fun y => sum_n Z (fun z => F x y z)))
  / INR (X * Y * Z)
  = sum_n Z (fun z =>
      sum_n Y (fun y => sum_n X (fun x => F x y z) / INR X) / INR Y)
    / INR Z.
Proof.
  unfold Rdiv.
  rewrite (sum_n_ext Z _
             (fun z => sum_n Y (fun y => sum_n X (fun x => F x y z))
                       * (/ INR X * / INR Y))).
  - rewrite (sum_n_scal Z (/ INR X * / INR Y)
               (fun z => sum_n Y (fun y => sum_n X (fun x => F x y z)))).
    rewrite (sum_n_ext X _
               (fun x => sum_n Z (fun z => sum_n Y (fun y => F x y z))))
      by (intros; apply sum_n_swap).
    rewrite (sum_n_swap X Z).
    rewrite (sum_n_ext Z _
               (fun z => sum_n Y (fun y => sum_n X (fun x => F x y z))))
      by (intros; apply sum_n_swap).
    rewrite !mult_INR, !Rinv_mult. ring.
  - intros z _.
    rewrite (sum_n_scal Y (/ INR X) (fun y => sum_n X (fun x => F x y z))).
    ring.
Qed.

Lemma rms_loop_eq (arr : nd4) :
  rms_loop arr = Nd.to_list (rms_broadcast arr).
Proof.
  unfold rms_loop. rewrite range_loop_eq by apply zeros_length.
  unfold Nd.to_list.
  change (len1 (rms_broadcast arr)) with (dt4 arr).
  apply map_ext_in. intros t Ht. apply in_seq in Ht.
  unfold rms_broadcast, Nd.sqrt1, Nd.mean0_2, Nd.mean0_3, Nd.mean0_4,
    Nd.sq4, Nd.sub4, Nd.reshape_trailing1, Nd.mean_all3, Nd.sq3, Nd.sub3,
    Nd.frame, Nd.mean_axis3.
  cbn [len1 at1 rows2 cols2 at2 dx3 dy3 dz3 at3 dx4 dy4 dz4 dt4 at4].
  rewrite !bdim_same. f_equal.
  rewrite mean_chain. f_equal.
  apply sum_n_ext. intros z Hz. f_equal.
  apply sum_n_ext. intros y Hy. f_equal.
  apply sum_n_ext. intros x Hx.
  rewrite !(bidx_lt (dx4 arr)), !(bidx_lt (dy4 arr)), !(bidx_lt (dz4 arr)),
    (bidx_lt (dt4 arr)) by lia.
  reflexivity.
Qed.

(** C9, amended: in exact real arithmetic, for every 4-d volume the loop
    over the time points (the square root of the mean over all voxels of the
    squared difference between the temporal mean and frame [t]) and the
    broadcast computation (the square root of three chained means of the
    squared difference against the reshaped temporal mean) give the same
    sequence, of one value per frame.  The float64 values of the two cells
    can differ by rounding. *)
Theorem C9_loop_equals_broadcast (s1_bold_arr : nd4) :
  rms_loop s1_bold_arr = Nd.to_list (rms_broadcast s1_bold_arr)
  /\ length (rms_loop s1_bold_arr) = dt4 s1_bold_arr.
Proof.
  split; [apply rms_loop_eq|].
  rewrite rms_loop_eq. apply rms_broadcast_length.
Qed.

(** ** The worst subject *)

Lemma fold_Rmax_ge (rest : list R) :
  forall x,
    x <= fold_left Rmax rest x
    /\ (forall y, In y rest -> y <= fold_left Rmax rest x).
Proof.
  induction rest as [|r rest IH]; intros x; simpl.
  - split; [lra|tauto].
  - destruct (IH (Rmax x r)) as [H1 H2].
    pose proof (Rmax_l x r). pose proof (Rmax_r x r).
    split; [lra|]. intros y [<-|Hin]; [lra|auto].
Qed.

Lemma fold_Rmax_in (rest : list R) :
  forall x, In (fold_left Rmax rest x) (x :: rest).
Proof.
  induction rest as [|r rest IH]; intros x; simpl.
  - now left.
  - destruct (IH (Rmax x r)) as [H|H].
    + unfold Rmax in H at 1. destruct (Rle_dec x r); auto.
    + auto.
Qed.

Lemma max_list_spec (l : list R) (mx : R) :
  max_list l = Some mx -> In mx l /\ (forall y, In y l -> y <= mx).
Proof.
  destruct l as [|x rest]; simpl; [discriminate|]. intros [= <-].
  split; [apply fold_Rmax_in|].
  destruct (fold_Rmax_ge rest x) as [H1 H2].
  intros y [<-|Hin]; auto.
Qed.

Lemma hd_nonzero_from (mask : list bool) :
  forall s,
    match hd_error (nonzero_from s mask) with
    | Some i =>
        (s <= i)%nat /\ nth (i - s) mask false = true
        /\ (forall j, (j < i - s)%nat -> nth j mask false = false)
    | None => forall j, nth j mask false = false
    end.
Proof.
  induction mask as [|b mask IH]; intros s; simpl.
  - intros [|j]; reflexivity.
  - destruct b; simpl.
    + rewrite Nat.sub_diag. split; [lia|]. split; [reflexivity|]. lia.
    + specialize (IH (S s)).
      destruct (hd_error (nonzero_from (S s) mask)) as [i|].
      * destruct IH as (Hle & Hi & Hlt).
        replace (i - s)%nat with (S (i - S s)) by lia.
        split; [lia|]. split; [assumption|].
        intros [|j] Hj; [reflexivity|]. apply Hlt. lia.
      * intros [|j]; [reflexivity|apply IH].
Qed.

Lemma hd_nonzero (mask : list bool) :
  match hd_error (nonzero mask) with
  | Some i =>
      nth i mask false = true
      /\ (forall j, (j < i)%nat -> nth j mask false = false)
  | None => forall j, nth j mask false = false
  end.
Proof.
  unfold nonzero. pose proof (hd_nonzero_from mask 0) as H.
  destruct (hd_error (nonzero_from 0 mask)) as [i|]; [|assumption].
  rewrite Nat.sub_0_r in H. tauto.
Qed.

Lemma Req_b_true (x y : R) : Req_b x y = true <-> x = y.
Proof.
  unfold Req_b. destruct (Req_dec_T x y); split; auto; discriminate.
Qed.

Lemma mean_axis1_nth (table : list (list R)) (i : nat) :
  nth i (mean_axis1 table) 0
  = sum_list (nth i table []) / INR (length (nth i table [])).
Proof.
  unfold mean_axis1.
  assert (E : 0 = (fun row => sum_list row / INR (length row)) [])
    by (simpl; unfold Rdiv; ring).
  rewrite E at 1.
  apply (map_nth (fun row => sum_list row / INR (length row))).
Qed.

(** C10: on a table with at least one subject and at least one time point
    a worst subject is selected; its time-averaged RMS is the maximum of the
    time averages of all subjects, and no subject before it reaches that
    maximum. *)
Theorem C10_worst_subject (rms_table : list (list R)) :
  rms_table <> [] ->
  (forall row, In row rms_table -> row <> []) ->
  exists w mx,
    worst_subject rms_table = Some w
    /\ max_list (mean_axis1 rms_table) = Some mx
    /\ (w < length rms_table)%nat
    /\ sum_list (nth w rms_table []) / INR (length (nth w rms_table [])) = mx
    /\ (forall j, (j < length rms_table)%nat ->
          sum_list (nth j rms_table []) / INR (length (nth j rms_table []))
          <= mx)
    /\ (forall j, (j < w)%nat ->
          sum_list (nth j rms_table []) / INR (length (nth j rms_table []))
          <> mx).
Proof.
  intros Hne _. unfold worst_subject.
  destruct (max_list (mean_axis1 rms_table)) as [mx|] eqn:Hmx.
  2:{ destruct rms_table; [congruence|discriminate]. }
  destruct (max_list_spec _ _ Hmx) as [Hin Hmax].
  assert (Hlen : length (mean_axis1 rms_table) = length rms_table)
    by apply length_map.
  pose proof (hd_nonzero (map (fun v => Req_b v mx) (mean_axis1 rms_table)))
    as Hhd.
  destruct (hd_error _) as [w|].
  - destruct Hhd as [Hw Hbefore].
    apply (nth_map_mask _ _ _ 0) in Hw. destruct Hw as [Hwl Hw].
    apply Req_b_true in Hw. rewrite mean_axis1_nth in Hw.
    exists w, mx. repeat split; try assumption; try lia.
    + intros j Hj. rewrite <- mean_axis1_nth. apply Hmax.
      apply nth_In. lia.
    + intros j Hj Heq. specialize (Hbefore j Hj).
      assert (nth j (map (fun v => Req_b v mx) (mean_axis1 rms_table)) false
              = true) as Ht.
      { apply (nth_map_mask _ _ _ 0). split; [lia|].
        apply Req_b_true. rewrite mean_axis1_nth. assumption. }
      congruence.
  - exfalso. apply (In_nth _ _ 0) in Hin. destruct Hin as (k & Hk & Hnk).
    specialize (Hhd k).
    assert (nth k (map (fun v => Req_b v mx) (mean_axis1 rms_table)) false
            = true) as Ht.
    { apply (nth_map_mask _ _ _ 0). split; [assumption|].
      apply Req_b_true. assumption. }
    congruence.
Qed.

(** C10 on three subjects with time averages 1.5, 3.5 and 3.5. *)
Lemma C10_worst_subject_witness :
  exists w mx,
    worst_subject [[1; 2]; [3; 4]; [4; 3]] = Some w
    /\ max_list (mean_axis1 [[1; 2]; [3; 4]; [4; 3]]) = Some mx
    /\ (w < 3)%nat
    /\ sum_list (nth w [[1; 2]; [3; 4]; [4; 3]] [])
       / INR (length (nth w [[1; 2]; [3; 4]; [4; 3]] [])) = mx
    /\ (forall j, (j < 3)%nat ->
          sum_list (nth j [[1; 2]; [3; 4]; [4; 3]] [])
          / INR (length (nth j [[1; 2]; [3; 4]; [4; 3]] [])) <= mx)
    /\ (forall j, (j < w)%nat ->
          sum_list (nth j [[1; 2]; [3; 4]; [4; 3]] [])
          / INR (length (nth j [[1; 2]; [3; 4]; [4; 3]] [])) <> mx).
Proof.
  apply (C10_worst_subject [[1; 2]; [3; 4]; [4; 3]]).
  - discriminate.
  - intros row [<-|[<-|[<-|[]]]]; discriminate.
Defined.

(** ** The code on sample inputs *)

Example displacement_translation_3_4_0 :
  displacement R_default xc_default (Mat.eye 4) (translation 3 4 0) = 5.
Proof.
  rewrite displacement_translation.
  unfold norm3, lin_apply, Mat.eye. simpl.
  replace (_ + _ + _) with (5 * 5) by ring.
  apply sqrt_square. lra.
Qed.

Example displacement_scaling_2_2 :
  displacement R_default xc_default (scaling 2) (scaling 2) = sqrt 11760.
Proof.
  rewrite displacement_formula.
  unfold Formula.displacement, Formula.E, Formula.trace_AtA, Formula.shift,
    R_default, xc_default, scaling, Mat.T, Mat.of_rows.
  simpl. f_equal. field.
Qed.

Example num_timepoints_sample :
  num_timepoints [(64, 64, 35, 170); (64, 64, 35, 164); (64, 64, 35, 168)]%nat
  = Some 164%nat.
Proof. reflexivity. Qed.

Example num_timepoints_no_subject : num_timepoints [] = None.
Proof. reflexivity. Qed.

Example diff_sample : diff [1; 4; 2] = [4 - 1; 2 - 4].
Proof. reflexivity. Qed.

Example worst_subject_sample :
  worst_subject [[1; 2]; [3; 4]; [4; 3]] = Some 1%nat.
Proof.
  unfold worst_subject, mean_axis1, max_list, sum_list. simpl.
  replace ((1 + (2 + 0)) / (1 + 1)) with 1.5 by lra.
  replace ((3 + (4 + 0)) / (1 + 1)) with 3.5 by lra.
  replace ((4 + (3 + 0)) / (1 + 1)) with 3.5 by lra.
  rewrite (Rmax_right 1.5 3.5) by lra. rewrite (Rmax_left 3.5 3.5) by lra.
  unfold Req_b.
  destruct (Req_dec_T 1.5 3.5) as [E|_]; [lra|].
  destruct (Req_dec_T 3.5 3.5) as [_|N]; [reflexivity|lra].
Qed.

Example bad_sub_inds_sample :
  bad_sub_inds max_disp_default [[0; 3; 3]; [0; 1; 1]] = [0%nat].
Proof.
  unfold bad_sub_inds. rewrite md_diff_rms_eq.
  unfold root_sum_square_diff, max_disp_default. simpl.
  replace (0 + (3 - 0) * ((3 - 0) * 1) + (3 - 3) * ((3 - 3) * 1))
    with (3 * 3) by ring.
  replace (0 + (1 - 0) * ((1 - 0) * 1) + (1 - 1) * ((1 - 1) * 1))
    with (1 * 1) by ring.
  rewrite !sqrt_square by lra.
  unfold Rge_b.
  destruct (Rge_dec 3 2.5) as [_|N]; [|lra].
  destruct (Rge_dec 1 2.5) as [G|_]; [lra|reflexivity].
Qed.

(** * Further properties of the notebook's code *)

(** ** The displacement curve as an array *)

Lemma mean_displacement_length (r : R) (xc : vec3) (R_ref : affine)
    (transforms : list affine) (n : nat) :
  length (mean_displacement r xc R_ref transforms n) = n.
Proof.
  unfold mean_displacement.
  rewrite fill_loop_eq by (rewrite zeros_length, length_firstn; lia).
  rewrite length_app, length_map, length_skipn, zeros_length, length_firstn.
  lia.
Qed.

(** The displacement curve of a subject always has [num_timepoints]
    entries: one summary per transform for the frames that have one, and
    the initial 0 for the frames past the last transform. *)
Theorem mean_displacement_shape (r : R) (xc : vec3) (R_ref : affine)
    (transforms : list affine) (n : nat) :
  length (mean_displacement r xc R_ref transforms n) = n
  /\ (forall i, (length transforms <= i)%nat ->
        nth i (mean_displacement r xc R_ref transforms n) 0 = 0).
Proof.
  unfold mean_displacement.
  assert (Hl : (length (firstn n transforms) <= length (zeros n))%nat)
    by (rewrite zeros_length, length_firstn; lia).
  rewrite fill_loop_eq by assumption. split.
  - rewrite length_app, length_map, length_skipn, zeros_length,
      length_firstn. lia.
  - intros i Hi.
    destruct (Nat.lt_ge_cases i n) as [Hin|Hin].
    + rewrite app_nth2 by (rewrite length_map, length_firstn; lia).
      rewrite length_map, length_firstn, nth_skipn.
      unfold zeros. apply nth_repeat.
    + apply nth_overflow.
      rewrite length_app, length_map, length_skipn, zeros_length,
        length_firstn. lia.
Qed.

Lemma mean_displacement_shape_witness :
  nth 1 (mean_displacement R_default xc_default (Mat.eye 4)
           [translation 3 4 0] 3) 0 = 0.
Proof.
  apply (proj2 (mean_displacement_shape R_default xc_default (Mat.eye 4)
                  [translation 3 4 0] 3)).
  simpl. lia.
Defined.

(** The table of all subjects has one row per subject, each of
    [num_timepoints] entries. *)
Theorem mean_displacement_all_shape (r : R) (xc : vec3)
    (subjects : list (affine * list affine)) (n : nat) :
  length (mean_displacement_all r xc subjects n) = length subjects
  /\ (forall row, In row (mean_displacement_all r xc subjects n) ->
        length row = n).
Proof.
  unfold mean_displacement_all.
  rewrite fill_loop_eq by (rewrite repeat_length; lia).
  rewrite skipn_all2 by (rewrite repeat_length; lia).
  rewrite app_nil_r, length_map. split; [reflexivity|].
  intros row Hin. apply in_map_iff in Hin. destruct Hin as (s & <- & _).
  apply mean_displacement_length.
Qed.

Lemma mean_displacement_all_shape_witness :
  length (nth 0 (mean_displacement_all R_default xc_default
                   [(Mat.eye 4, [translation 3 4 0])] 3) []) = 3%nat.
Proof.
  apply (proj2 (mean_displacement_all_shape R_default xc_default
                  [(Mat.eye 4, [translation 3 4 0])] 3)).
  apply nth_In. rewrite (proj1 (mean_displacement_all_shape _ _ _ _)).
  simpl. lia.
Defined.

(** ** Bounds on the displacement summary *)

(** The summary is never negative; it is at least the length of the net
    translation [t + A . xc] at the center, and at least [|r|] times
    [sqrt(trace(A^T A) / 5)]. *)
Theorem displacement_lower_bounds (r : R) (xc : vec3) (R_ref T_i : affine) :
  0 <= displacement r xc R_ref T_i
  /\ norm3 (Formula.shift (Formula.E R_ref T_i) xc 0)
           (Formula.shift (Formula.E R_ref T_i) xc 1)
           (Formula.shift (Formula.E R_ref T_i) xc 2)
     <= displacement r xc R_ref T_i
  /\ Rabs r * sqrt (Formula.trace_AtA (Formula.E R_ref T_i) / 5)
     <= displacement r xc R_ref T_i.
Proof.
  rewrite displacement_formula. unfold Formula.displacement, norm3.
  set (e := Formula.E R_ref T_i).
  pose proof (trace_AtA_nonneg e) as Ht.
  pose proof (sumsq3_nonneg (Formula.shift e xc 0) (Formula.shift e xc 1)
                (Formula.shift e xc 2)) as Hs.
  assert (Hp : 0 <= r * r / 5 * Formula.trace_AtA e).
  { apply Rmult_le_pos; [nra|assumption]. }
  split; [apply sqrt_pos|]. split.
  - apply sqrt_le_1_alt. lra.
  - rewrite <- sqrt_Rsqr_abs, <- sqrt_mult_alt by apply Rle_0_sqr.
    apply sqrt_le_1_alt. unfold Rsqr. lra.
Qed.

(** ** No displacement means no motion *)

Lemma mul4_assoc (a b c : affine) (i j : nat) :
  Mat.mul (Mat.mul a b) c i j = Mat.mul a (Mat.mul b c) i j.
Proof. unfold Mat.mul. simpl. ring. Qed.

(** In exact arithmetic: for an invertible reference affine and a radius
    other than 0, when both affines have the last row [0 0 0 1], the formula
    of the summary is 0 only if the per-frame transform is the identity.
    (In float64 a translation below the rounding of the product is lost.) *)
Theorem displacement_zero_only_identity (r : R) (xc : vec3)
    (R_ref T_i : affine) :
  r <> 0 -> invertible R_ref ->
  (forall j, (j < 4)%nat -> R_ref.[3, j] = Mat.eye 4 3%nat j) ->
  (forall j, (j < 4)%nat -> T_i.[3, j] = Mat.eye 4 3%nat j) ->
  displacement r xc R_ref T_i = 0 ->
  Mat.eqm T_i (Mat.eye 4).
Proof.
  intros Hr (b & _ & Hba) HR HT H0.
  pose proof (proj1 (displacement_zero_iff r xc R_ref T_i Hr) H0) as Hz.
  clear H0. rename Hz into H0.
  assert (Hprod : forall i j, (i < 4)%nat -> (j < 4)%nat ->
            Mat.mul R_ref T_i i j = R_ref i j).
  { intros i j Hi Hj. destruct (Nat.eq_dec i 3) as [->|Hne].
    - unfold Mat.mul. simpl. rewrite !HR by lia. unfold Mat.eye. simpl.
      rewrite HT by assumption. unfold Mat.eye. simpl. ring.
    - specialize (H0 i j ltac:(lia) Hj).
      rewrite E_T_error in H0. unfold T_error, Mat.sub in H0. lra. }
  intros i j Hi Hj.
  assert (Hid : Mat.mul (Mat.mul b R_ref) T_i i j = T_i i j).
  { unfold Mat.mul at 1. simpl.
    rewrite !(Hba i) by lia. unfold Mat.eye.
    below i; simpl; ring. }
  rewrite <- Hid, mul4_assoc.
  unfold Mat.mul at 1. simpl.
  rewrite !Hprod by lia.
  pose proof (Hba i j Hi Hj) as Hij. unfold Mat.mul in Hij. simpl in Hij.
  lra.
Qed.

Lemma displacement_zero_only_identity_witness :
  Mat.eqm (translation 0 0 0) (Mat.eye 4).
Proof.
  apply (displacement_zero_only_identity R_default xc_default (scaling 2)
           (translation 0 0 0)).
  - unfold R_default. lra.
  - apply scaling_invertible. lra.
  - intros j Hj. below j; reflexivity.
  - intros j Hj. below j; reflexivity.
  - rewrite displacement_translation.
    unfold norm3, lin_apply, scaling, Mat.of_rows. simpl.
    replace (_ + _ + _) with 0 by ring. apply sqrt_0.
Defined.

(** ** The flagged subjects *)

Lemma nonzero_from_sorted (mask : list bool) :
  forall s, StronglySorted lt (nonzero_from s mask).
Proof.
  induction mask as [|b mask IH]; intros s; simpl; [constructor|].
  destruct b; simpl; [|apply IH].
  constructor; [apply IH|].
  apply Forall_forall. intros i Hi. apply nonzero_from_In in Hi. lia.
Qed.

Lemma bad_sub_inds_lt (max_disp : R) (table : list (list R)) (i : nat) :
  In i (bad_sub_inds max_disp table) -> (i < length table)%nat.
Proof.
  unfold bad_sub_inds. rewrite nonzero_In, (nth_map_mask _ _ _ 0).
  unfold md_diff_rms, md_diff. rewrite !length_map. tauto.
Qed.

Lemma bad_sub_inds_iff (max_disp : R) (table : list (list R)) (i : nat) :
  In i (bad_sub_inds max_disp table)
  <-> (i < length table)%nat
      /\ root_sum_square_diff (nth i table []) >= max_disp.
Proof.
  unfold bad_sub_inds.
  rewrite nonzero_In, md_diff_rms_eq, (nth_map_mask _ _ _ 0), length_map.
  rewrite Rge_b_true.
  split; intros [Hi H]; (split; [assumption|]).
  - rewrite (nth_indep _ 0 (root_sum_square_diff [])) in H
      by (rewrite length_map; assumption).
    now rewrite map_nth in H.
  - rewrite (nth_indep _ 0 (root_sum_square_diff []))
      by (rewrite length_map; assumption).
    now rewrite map_nth.
Qed.

(** The flagged indices come out in strictly increasing order, so without
    repetition, and each one is the index of a row of the table. *)
Theorem bad_sub_inds_sorted (max_disp : R) (table : list (list R)) :
  StronglySorted lt (bad_sub_inds max_disp table)
  /\ NoDup (bad_sub_inds max_disp table)
  /\ Forall (fun i => (i < length table)%nat) (bad_sub_inds max_disp table).
Proof.
  assert (Hs : StronglySorted lt (bad_sub_inds max_disp table))
    by apply nonzero_from_sorted.
  split; [assumption|]. split.
  - induction Hs as [|i l Hs IH Hall]; constructor; [|assumption].
    intros Hin. rewrite Forall_forall in Hall. specialize (Hall i Hin). lia.
  - apply Forall_forall. intros i. apply bad_sub_inds_lt.
Qed.

Lemma lookup_all_some {A : Type} (l : list A) (inds : list nat) :
  Forall (fun i => (i < length l)%nat) inds ->
  exists xs, lookup_all l inds = Some xs
             /\ map Some xs = map (nth_error l) inds.
Proof.
  induction 1 as [|i inds Hi _ IH]; simpl.
  - exists []. split; reflexivity.
  - destruct (nth_error l i) as [x|] eqn:E.
    + destruct IH as (xs & -> & Hxs). exists (x :: xs).
      split; [reflexivity|]. simpl. now rewrite Hxs.
    + apply nth_error_None in E. lia.
Qed.

(** When [all_subs] names every row of the table, printing the flagged
    subjects never indexes past the end of [all_subs]: it yields the names
    at the flagged indices, in order. *)
Theorem bad_sub_names_defined (all_subs : list String.string) (max_disp : R)
    (table : list (list R)) :
  (length table <= length all_subs)%nat ->
  exists names,
    bad_sub_names all_subs max_disp table = Some names
    /\ map Some names
       = map (nth_error all_subs) (bad_sub_inds max_disp table).
Proof.
  intros Hlen. unfold bad_sub_names. apply lookup_all_some.
  apply Forall_forall. intros i Hi. apply bad_sub_inds_lt in Hi. lia.
Qed.

Lemma bad_sub_names_defined_witness :
  exists names,
    bad_sub_names [Names.sub001; Names.sub002] max_disp_default
      [[0; 3; 3]; [0; 1; 1]] = Some names
    /\ map Some names
       = map (nth_error [Names.sub001; Names.sub002])
           (bad_sub_inds max_disp_default [[0; 3; 3]; [0; 1; 1]]).
Proof.
  apply (bad_sub_names_defined [Names.sub001; Names.sub002]
           max_disp_default [[0; 3; 3]; [0; 1; 1]]).
  simpl. lia.
Defined.

Lemma root_sum_square_diff_nonneg (curve : list R) :
  0 <= root_sum_square_diff curve.
Proof. apply sqrt_pos. Qed.

(** Raising the threshold can only remove subjects from the flagged ones,
    and a threshold of 0 or less flags every subject. *)
Theorem bad_sub_inds_threshold (table : list (list R)) :
  (forall lo hi i, lo <= hi ->
     In i (bad_sub_inds hi table) -> In i (bad_sub_inds lo table))
  /\ (forall max_disp, max_disp <= 0 ->
        bad_sub_inds max_disp table = seq 0 (length table)).
Proof.
  split.
  - intros lo hi i Hle. rewrite !bad_sub_inds_iff. intros [Hi H].
    split; [assumption|lra].
  - intros max_disp Hle. unfold bad_sub_inds. rewrite md_diff_rms_eq.
    unfold nonzero. generalize 0%nat.
    induction table as [|row table IH]; intros s; [reflexivity|].
    simpl. rewrite IH.
    replace (Rge_b (root_sum_square_diff row) max_disp) with true;
      [reflexivity|].
    symmetry. apply Rge_b_true.
    pose proof (root_sum_square_diff_nonneg row). lra.
Qed.

Lemma bad_sub_inds_threshold_witness :
  bad_sub_inds 0 [[0; 3; 3]; [0; 1; 1]] = [0; 1]%nat.
Proof.
  apply (proj2 (bad_sub_inds_threshold [[0; 3; 3]; [0; 1; 1]]) 0). lra.
Defined.

Lemma diff_shift (c : R) (row : list R) :
  diff (map (fun v => v + c) row) = diff row.
Proof.
  induction row as [|x row IH]; [reflexivity|].
  destruct row as [|y tl]; [reflexivity|].
  change (map (fun v => v + c) (x :: y :: tl))
    with ((x + c) :: (y + c) :: map (fun v => v + c) tl).
  rewrite !diff_cons2. f_equal; [ring|]. exact IH.
Qed.

Lemma diff_steady (v : R) (n : nat) : diff (repeat v n) = repeat 0 (n - 1).
Proof.
  induction n as [|n IH]; [reflexivity|].
  destruct n as [|n]; [reflexivity|].
  change (repeat v (S (S n))) with (v :: v :: repeat v n).
  rewrite diff_cons2. change (v :: repeat v n) with (repeat v (S n)).
  rewrite IH. simpl. rewrite Nat.sub_0_r. f_equal. ring.
Qed.

Lemma sum_sq_repeat_zero (n : nat) :
  sum_list (map (fun d => d ^ 2) (repeat 0 n)) = 0.
Proof.
  induction n as [|n IH]; simpl; [reflexivity|].
  simpl in IH. rewrite IH. ring.
Qed.

Lemma root_sum_square_diff_steady (v : R) (n : nat) :
  root_sum_square_diff (repeat v n) = 0.
Proof.
  rewrite <- root_sum_square_diff_eq, diff_steady, sum_sq_repeat_zero.
  apply sqrt_0.
Qed.

(** In exact arithmetic: the summaries, and so the flagged subjects, do not
    change when a constant offset is added to every displacement; and a
    subject whose curve stays at one value is not flagged at a positive
    threshold.  (In float64 the offset can change a difference in its last
    bit.) *)
Theorem md_diff_rms_offset (table : list (list R)) :
  (forall c, md_diff_rms (map (map (fun v => v + c)) table)
             = md_diff_rms table)
  /\ (forall c max_disp,
        bad_sub_inds max_disp (map (map (fun v => v + c)) table)
        = bad_sub_inds max_disp table)
  /\ (forall i v n max_disp, 0 < max_disp ->
        nth i table [] = repeat v n ->
        ~ In i (bad_sub_inds max_disp table)).
Proof.
  assert (Hoff : forall c, md_diff_rms (map (map (fun v => v + c)) table)
                           = md_diff_rms table).
  { intros c. unfold md_diff_rms, md_diff. rewrite !map_map.
    apply map_ext. intros row. now rewrite diff_shift. }
  split; [exact Hoff|]. split.
  - intros c max_disp. unfold bad_sub_inds. now rewrite Hoff.
  - intros i v n max_disp Hpos Hrow Hin.
    apply bad_sub_inds_iff in Hin. destruct Hin as [_ Hge].
    rewrite Hrow, root_sum_square_diff_steady in Hge. lra.
Qed.

Lemma md_diff_rms_offset_witness :
  ~ In 1%nat (bad_sub_inds max_disp_default [[0; 3; 3]; repeat 7 3]).
Proof.
  apply (proj2 (proj2 (md_diff_rms_offset [[0; 3; 3]; repeat 7 3]))
           1%nat 7 3%nat max_disp_default).
  - unfold max_disp_default. lra.
  - reflexivity.
Defined.

Lemma sum_n_nonneg (n : nat) (f : nat -> R) :
  (forall k, (k < n)%nat -> 0 <= f k) -> 0 <= sum_n n f.
Proof.
  induction n as [|n IH]; intros H; simpl; [lra|].
  pose proof (IH (fun k Hk => H k (Nat.lt_lt_succ_r _ _ Hk))).
  pose proof (H n (Nat.lt_succ_diag_r n)). lra.
Qed.

Lemma sum_n_ge_term (n : nat) (f : nat -> R) (j : nat) :
  (forall k, (k < n)%nat -> 0 <= f k) -> (j < n)%nat -> f j <= sum_n n f.
Proof.
  induction n as [|n IH]; intros H Hj; [lia|]. simpl.
  pose proof (H n (Nat.lt_succ_diag_r n)).
  destruct (Nat.eq_dec j n) as [->|Hne].
  - pose proof (sum_n_nonneg n f (fun k Hk => H k (Nat.lt_lt_succ_r _ _ Hk))).
    lra.
  - pose proof (IH (fun k Hk => H k (Nat.lt_lt_succ_r _ _ Hk))
                  ltac:(lia)). lra.
Qed.

(** A subject's summary is at least the size of each single change between
    consecutive frames, so one jump that reaches the threshold is enough to
    flag the subject. *)
Theorem single_jump_flags (max_disp : R) (table : list (list R)) (i j : nat) :
  (i < length table)%nat ->
  (S j < length (nth i table []))%nat ->
  Rabs (nth (S j) (nth i table []) 0 - nth j (nth i table []) 0)
  <= root_sum_square_diff (nth i table [])
  /\ (Rabs (nth (S j) (nth i table []) 0 - nth j (nth i table []) 0)
      >= max_disp ->
      In i (bad_sub_inds max_disp table)).
Proof.
  intros Hi Hj.
  assert (Hb : Rabs (nth (S j) (nth i table []) 0 - nth j (nth i table []) 0)
               <= root_sum_square_diff (nth i table [])).
  { set (row := nth i table []) in *.
    unfold root_sum_square_diff. rewrite <- sqrt_Rsqr_abs.
    apply sqrt_le_1_alt.
    pose proof (sum_n_ge_term (length row - 1)
                  (fun k => (nth (S k) row 0 - nth k row 0) ^ 2) j
                  (fun k _ => pow2_ge_0 _) ltac:(lia)) as H.
    cbv beta in H. unfold Rsqr.
    replace ((nth (S j) row 0 - nth j row 0) * (nth (S j) row 0 - nth j row 0))
      with ((nth (S j) row 0 - nth j row 0) ^ 2) by ring.
    exact H. }
  split; [assumption|].
  intros Hge. apply bad_sub_inds_iff. split; [assumption|lra].
Qed.

Lemma single_jump_flags_witness :
  In 0%nat (bad_sub_inds max_disp_default [[0; 3; 3]; [0; 1; 1]]).
Proof.
  apply (proj2 (single_jump_flags max_disp_default [[0; 3; 3]; [0; 1; 1]]
                  0 0 ltac:(simpl; lia) ltac:(simpl; lia))).
  simpl. unfold max_disp_default.
  replace (3 - 0) with 3 by ring. rewrite Rabs_right; lra.
Defined.

(** ** The check of the image dimensions *)

Ltac shapes :=
  repeat match goal with
         | s : shape4 |- _ => destruct s as [[[? ?] ?] ?]
         end;
  unfold shape_le, min_shape, max_shape in *.

Lemma fold_min_shape_bounds (rest : list shape4) :
  forall s,
    shape_le (fold_left min_shape rest s) s
    /\ (forall s', In s' rest -> shape_le (fold_left min_shape rest s) s').
Proof.
  induction rest as [|r rest IH]; intros s; simpl.
  - split; [shapes; lia|tauto].
  - destruct (IH (min_shape s r)) as [H1 H2].
    set (m := fold_left min_shape rest (min_shape s r)) in *. clearbody m.
    split; [shapes; lia|].
    intros s' [<-|Hin]; [shapes; lia|auto].
Qed.

Lemma fold_max_shape_bounds (rest : list shape4) :
  forall s,
    shape_le s (fold_left max_shape rest s)
    /\ (forall s', In s' rest -> shape_le s' (fold_left max_shape rest s)).
Proof.
  induction rest as [|r rest IH]; intros s; simpl.
  - split; [shapes; lia|tauto].
  - destruct (IH (max_shape s r)) as [H1 H2].
    set (m := fold_left max_shape rest (max_shape s r)) in *. clearbody m.
    split; [shapes; lia|].
    intros s' [<-|Hin]; [shapes; lia|auto].
Qed.

Lemma fold_shape_same (f : shape4 -> shape4 -> shape4) (rest : list shape4)
    (s : shape4) :
  f s s = s -> (forall s', In s' rest -> s' = s) -> fold_left f rest s = s.
Proof.
  intros Hf. induction rest as [|r rest IH]; intros H; simpl; [reflexivity|].
  rewrite (H r) by now left. rewrite Hf. apply IH.
  intros s' Hin. apply H. now right.
Qed.

(** The check of the dimensions: every subject's shape lies between the
    printed minimum and maximum on every axis, and the two are equal exactly
    when all the subjects have the same shape. *)
Theorem dims_min_max (dims : list shape4) (lo hi : shape4) :
  min_axis0 dims = Some lo -> max_axis0 dims = Some hi ->
  (forall s, In s dims -> shape_le lo s /\ shape_le s hi)
  /\ (lo = hi <-> forall s, In s dims -> s = lo).
Proof.
  destruct dims as [|s0 rest]; simpl; [discriminate|].
  intros [= <-] [= <-].
  destruct (fold_min_shape_bounds rest s0) as [L0 L].
  destruct (fold_max_shape_bounds rest s0) as [H0 H].
  set (lo := fold_left min_shape rest s0) in *.
  set (hi := fold_left max_shape rest s0) in *.
  assert (Hb : forall s, s0 = s \/ In s rest -> shape_le lo s /\ shape_le s hi).
  { intros s [<-|Hin]; split; auto. }
  split; [exact Hb|]. split.
  - intros E s Hin. destruct (Hb s Hin) as [B1 B2]. rewrite <- E in B2.
    clearbody lo hi. clear -B1 B2. shapes.
    repeat match goal with H : _ /\ _ |- _ => destruct H end.
    repeat f_equal; lia.
  - intros Hall.
    assert (E0 : s0 = lo) by (apply Hall; now left).
    unfold hi. rewrite E0. symmetry. apply fold_shape_same.
    + clear. destruct lo as [[[a b] c] d]. simpl.
      now rewrite !Nat.max_id.
    + intros s' Hin. apply Hall. now right.
Qed.

Lemma dims_min_max_witness :
  (forall s, In s [(64, 64, 35, 170); (64, 64, 35, 164)]%nat ->
     shape_le (64, 64, 35, 164)%nat s /\ shape_le s (64, 64, 35, 170)%nat)
  /\ ((64, 64, 35, 164)%nat = (64, 64, 35, 170)%nat
      <-> forall s, In s [(64, 64, 35, 170); (64, 64, 35, 164)]%nat ->
            s = (64, 64, 35, 164)%nat).
Proof.
  apply (dims_min_max [(64, 64, 35, 170); (64, 64, 35, 164)]%nat);
    reflexivity.
Defined.

(** ** The RMS error of one subject *)

Lemma sum_n_eq_0 (n : nat) (f : nat -> R) :
  (forall k, (k < n)%nat -> 0 <= f k) -> sum_n n f = 0 ->
  forall k, (k < n)%nat -> f k = 0.
Proof.
  intros Hpos H0 k Hk.
  pose proof (sum_n_ge_term n f k Hpos Hk). pose proof (Hpos k Hk). lra.
Qed.

Lemma sum_n_all_0 (n : nat) (f : nat -> R) :
  (forall k, (k < n)%nat -> f k = 0) -> sum_n n f = 0.
Proof.
  intros H. rewrite (sum_n_ext n f (fun _ => 0)) by assumption.
  apply sum_n_zero.
Qed.

Lemma sum_n_const (n : nat) (c : R) : sum_n n (fun _ => c) = INR n * c.
Proof.
  induction n as [|n IH]; [simpl; ring|].
  rewrite S_INR. simpl. rewrite IH. ring.
Qed.

(** The squared deviation of frame [t] from the temporal mean, over all
    voxels. *)
Lemma rms_loop_nth (arr : nd4) (t : nat) :
  (t < dt4 arr)%nat ->
  nth t (rms_loop arr) 0
  = sqrt (sum_n (dx4 arr) (fun x => sum_n (dy4 arr) (fun y =>
            sum_n (dz4 arr) (fun z =>
              (at3 (Nd.mean_axis3 arr) x y z - at4 arr x y z t) ^ 2)))
          / INR (dx4 arr * dy4 arr * dz4 arr)).
Proof.
  intros Ht. unfold rms_loop. rewrite range_loop_eq by apply zeros_length.
  rewrite (nth_indep _ 0 ((fun t => sqrt (Nd.mean_all3 (Nd.sq3
             (Nd.sub3 (Nd.mean_axis3 arr) (Nd.frame arr t))))) 0%nat))
    by (rewrite length_map, length_seq; assumption).
  rewrite (map_nth (fun t => sqrt (Nd.mean_all3 (Nd.sq3
             (Nd.sub3 (Nd.mean_axis3 arr) (Nd.frame arr t)))))).
  rewrite seq_nth by assumption. simpl Nat.add.
  unfold Nd.mean_all3, Nd.sq3, Nd.sub3, Nd.frame.
  cbn [dx3 dy3 dz3 at3].
  change (dx3 (Nd.mean_axis3 arr)) with (dx4 arr).
  change (dy3 (Nd.mean_axis3 arr)) with (dy4 arr).
  change (dz3 (Nd.mean_axis3 arr)) with (dz4 arr).
  rewrite !bdim_same. f_equal. f_equal.
  apply sum_n_ext. intros x Hx. apply sum_n_ext. intros y Hy.
  apply sum_n_ext. intros z Hz.
  rewrite !(bidx_lt (dx4 arr)), !(bidx_lt (dy4 arr)), !(bidx_lt (dz4 arr))
    by lia.
  reflexivity.
Qed.

Lemma sq_sum3_nonneg (X Y Z : nat) (F : nat -> nat -> nat -> R) :
  0 <= sum_n X (fun x => sum_n Y (fun y => sum_n Z (fun z => F x y z ^ 2))).
Proof.
  apply sum_n_nonneg. intros x _. apply sum_n_nonneg. intros y _.
  apply sum_n_nonneg. intros z _. apply pow2_ge_0.
Qed.

Lemma Rinv_INR_nonneg (n : nat) : 0 <= / INR n.
Proof.
  destruct n as [|n].
  - simpl. rewrite Rinv_0. lra.
  - left. apply Rinv_0_lt_compat. apply lt_0_INR. lia.
Qed.

(** On a volume with at least one voxel, the RMS error of a frame is 0
    exactly when the frame equals the temporal mean image at every voxel. *)
Theorem rms_zero_iff (arr : nd4) (t : nat) :
  (0 < dx4 arr)%nat -> (0 < dy4 arr)%nat -> (0 < dz4 arr)%nat ->
  (t < dt4 arr)%nat ->
  nth t (rms_loop arr) 0 = 0
  <-> (forall x y z, (x < dx4 arr)%nat -> (y < dy4 arr)%nat ->
         (z < dz4 arr)%nat ->
         at4 arr x y z t = at3 (Nd.mean_axis3 arr) x y z).
Proof.
  intros HX HY HZ Ht. rewrite rms_loop_nth by assumption.
  set (m := at3 (Nd.mean_axis3 arr)).
  set (S := sum_n (dx4 arr) _).
  assert (HS : 0 <= S) by apply sq_sum3_nonneg.
  assert (HN : 0 < INR (dx4 arr * dy4 arr * dz4 arr)).
  { apply lt_0_INR. apply Nat.mul_pos_pos; [apply Nat.mul_pos_pos|];
      assumption. }
  split.
  - intros H0. apply sqrt_eq_0 in H0.
    2:{ apply Rmult_le_pos; [assumption|]. left.
        now apply Rinv_0_lt_compat. }
    assert (S0 : S = 0).
    { unfold Rdiv in H0. apply Rmult_integral in H0.
      destruct H0 as [H0|H0]; [assumption|].
      pose proof (Rinv_0_lt_compat _ HN). lra. }
    intros x y z Hx Hy Hz.
    pose proof (sum_n_eq_0 _ _
                  (fun x _ => sum_n_nonneg _ _ (fun y _ =>
                     sum_n_nonneg _ _ (fun z _ => pow2_ge_0 _))) S0 x Hx)
      as S1. cbv beta in S1.
    pose proof (sum_n_eq_0 _ _
                  (fun y _ => sum_n_nonneg _ _ (fun z _ => pow2_ge_0 _))
                  S1 y Hy) as S2. cbv beta in S2.
    pose proof (sum_n_eq_0 _ _ (fun z _ => pow2_ge_0 _) S2 z Hz) as S3.
    cbv beta in S3. simpl in S3. nra.
  - intros H.
    assert (S0 : S = 0).
    { unfold S. apply sum_n_all_0. intros x Hx. apply sum_n_all_0.
      intros y Hy. apply sum_n_all_0. intros z Hz.
      rewrite (H x y z Hx Hy Hz). fold m. ring. }
    rewrite S0. unfold Rdiv. rewrite Rmult_0_l. apply sqrt_0.
Qed.

Lemma rms_zero_iff_witness :
  nth 0 (rms_loop (const_volume 2 2 1 3 1)) 0 = 0
  <-> (forall x y z, (x < 2)%nat -> (y < 2)%nat -> (z < 1)%nat ->
         at4 (const_volume 2 2 1 3 1) x y z 0
         = at3 (Nd.mean_axis3 (const_volume 2 2 1 3 1)) x y z).
Proof.
  apply (rms_zero_iff (const_volume 2 2 1 3 1) 0); simpl; lia.
Defined.

(** In exact arithmetic: a volume with at least one voxel whose frames are
    all equal has an RMS curve of zeros.  (In float64 the mean of equal
    frames need not be the frame.) *)
Theorem rms_static_volume (arr : nd4) :
  (0 < dx4 arr)%nat -> (0 < dy4 arr)%nat -> (0 < dz4 arr)%nat ->
  (forall x y z t t', (x < dx4 arr)%nat -> (y < dy4 arr)%nat ->
     (z < dz4 arr)%nat -> (t < dt4 arr)%nat -> (t' < dt4 arr)%nat ->
     at4 arr x y z t = at4 arr x y z t') ->
  rms_loop arr = zeros (dt4 arr).
Proof.
  intros _ _ _ Hst.
  apply (nth_ext _ _ 0 0).
  - rewrite zeros_length, rms_loop_eq. apply rms_broadcast_length.
  - intros t Ht. rewrite rms_loop_eq, rms_broadcast_length in Ht.
    unfold zeros. rewrite nth_repeat. rewrite rms_loop_nth by assumption.
    match goal with |- sqrt (?s / _) = 0 => assert (S0 : s = 0) end.
    { apply sum_n_all_0. intros x Hx. apply sum_n_all_0. intros y Hy.
      apply sum_n_all_0. intros z Hz.
      unfold Nd.mean_axis3. cbn [at3].
      rewrite (sum_n_ext _ _ (fun _ => at4 arr x y z t))
        by (intros t' Ht'; apply Hst; assumption).
      rewrite sum_n_const.
      assert (INR (dt4 arr) <> 0) by (apply not_0_INR; lia).
      replace (INR (dt4 arr) * at4 arr x y z t / INR (dt4 arr))
        with (at4 arr x y z t) by (field; assumption).
      ring. }
    rewrite S0. unfold Rdiv. rewrite Rmult_0_l. apply sqrt_0.
Qed.

Lemma rms_static_volume_witness :
  rms_loop (const_volume 2 2 1 3 1) = zeros 3.
Proof.
  apply (rms_static_volume (const_volume 2 2 1 3 1)); simpl; try lia.
  intros. reflexivity.
Defined.

(** The mean over time of the squared RMS error equals the mean over the
    voxels of the squared temporal standard deviation. *)
Theorem rms_std_balance (arr : nd4) :
  sum_list (map (fun v => v ^ 2) (rms_loop arr)) / INR (dt4 arr)
  = Nd.mean_all3 (Nd.sq3 (std_axis3 arr)).
Proof.
  set (d := fun x y z t => (at3 (Nd.mean_axis3 arr) x y z - at4 arr x y z t) ^ 2).
  set (N := INR (dx4 arr * dy4 arr * dz4 arr)).
  assert (HL : sum_list (map (fun v => v ^ 2) (rms_loop arr))
               = sum_n (dt4 arr) (fun t =>
                   sum_n (dx4 arr) (fun x => sum_n (dy4 arr) (fun y =>
                     sum_n (dz4 arr) (fun z => d x y z t))) / N)).
  { rewrite sum_list_nth, length_map, rms_loop_eq, rms_broadcast_length.
    apply sum_n_ext. intros t Ht.
    rewrite (nth_indep _ 0 ((fun v => v ^ 2) 0))
      by (rewrite length_map, rms_broadcast_length; assumption).
    rewrite (map_nth (fun v => v ^ 2)), <- rms_loop_eq.
    rewrite rms_loop_nth by assumption.
    rewrite pow2_sqrt; [reflexivity|].
    apply Rmult_le_pos; [apply sq_sum3_nonneg|apply Rinv_INR_nonneg]. }
  rewrite HL. unfold Nd.mean_all3, Nd.sq3, std_axis3.
  cbn [dx3 dy3 dz3 at3]. fold N.
  rewrite (sum_n_ext (dx4 arr) _
             (fun x => sum_n (dy4 arr) (fun y => sum_n (dz4 arr) (fun z =>
                sum_n (dt4 arr) (fun t => d x y z t) / INR (dt4 arr))))).
  2:{ intros x _. apply sum_n_ext. intros y _. apply sum_n_ext. intros z _.
      rewrite pow2_sqrt.
      - f_equal. apply sum_n_ext. intros t _. unfold d. ring.
      - apply Rmult_le_pos; [|apply Rinv_INR_nonneg].
        apply sum_n_nonneg. intros t _. apply pow2_ge_0. }
  unfold Rdiv.
  rewrite (sum_n_scal (dt4 arr) (/ N)
             (fun t => sum_n (dx4 arr) (fun x => sum_n (dy4 arr) (fun y =>
                sum_n (dz4 arr) (fun z => d x y z t))))).
  rewrite (sum_n_ext (dx4 arr) _
             (fun x => sum_n (dy4 arr) (fun y => sum_n (dz4 arr) (fun z =>
                sum_n (dt4 arr) (fun t => d x y z t))) * / INR (dt4 arr))).
  2:{ intros x _.
      rewrite <- (sum_n_scal (dy4 arr) (/ INR (dt4 arr))).
      apply sum_n_ext. intros y _.
      now rewrite <- (sum_n_scal (dz4 arr) (/ INR (dt4 arr))). }
  rewrite (sum_n_scal (dx4 arr) (/ INR (dt4 arr))).
  rewrite (sum_n_swap (dt4 arr) (dx4 arr)).
  rewrite (sum_n_ext (dx4 arr) _
             (fun x => sum_n (dy4 arr) (fun y => sum_n (dz4 arr) (fun z =>
                sum_n (dt4 arr) (fun t => d x y z t))))).
  2:{ intros x _. rewrite (sum_n_swap (dt4 arr) (dy4 arr)).
      apply sum_n_ext. intros y _. apply sum_n_swap. }
  ring.
Qed.

(** ** From the volumes to the worst subject *)

Lemma worst_subject_in_range (table : list (list R)) :
  table <> [] ->
  exists w, worst_subject table = Some w /\ (w < length table)%nat.
Proof.
  intros Hne. unfold worst_subject.
  destruct (max_list (mean_axis1 table)) as [mx|] eqn:Hmx.
  2:{ destruct table; [congruence|discriminate]. }
  destruct (max_list_spec _ _ Hmx) as [Hin _].
  pose proof (hd_nonzero (map (fun v => Req_b v mx) (mean_axis1 table)))
    as Hhd.
  destruct (hd_error _) as [w|].
  - destruct Hhd as [Hw _]. apply (nth_map_mask _ _ _ 0) in Hw.
    unfold mean_axis1 in Hw. rewrite length_map in Hw.
    exists w. split; [reflexivity|tauto].
  - exfalso. apply (In_nth _ _ 0) in Hin. destruct Hin as (k & Hk & Hnk).
    specialize (Hhd k).
    assert (nth k (map (fun v => Req_b v mx) (mean_axis1 table)) false
            = true) as Ht.
    { apply (nth_map_mask _ _ _ 0). split; [assumption|].
      apply Req_b_true. assumption. }
    congruence.
Qed.

Lemma rms_all_length (subjects : list nd4) (table : list (list R)) :
  rms_all subjects = Some table -> length table = length subjects.
Proof.
  unfold rms_all. destruct (num_timepoints (dims_all subjects)) as [n|];
    [|discriminate].
  intros [= <-].
  rewrite fill_loop_eq by (rewrite repeat_length; lia).
  rewrite skipn_all2 by (rewrite repeat_length; lia).
  now rewrite app_nil_r, length_map.
Qed.

(** With one name per subject, at least one subject, and volumes that have
    voxels and frames, the cells from the dimensions to the worst subject
    run through: a worst subject is found and its index selects a name of
    [all_subs]. *)
Theorem worst_subject_name_defined (all_subs : list String.string)
    (subjects : list nd4) :
  length all_subs = length subjects ->
  subjects <> [] ->
  (forall s, In s subjects -> nonempty_volume s) ->
  exists table w name,
    rms_all subjects = Some table
    /\ worst_subject table = Some w
    /\ (w < length subjects)%nat
    /\ worst_subject_name all_subs subjects = Some name
    /\ nth_error all_subs w = Some name.
Proof.
  intros Hlen Hne _. unfold worst_subject_name.
  destruct (rms_all subjects) as [table|] eqn:Hrms.
  2:{ unfold rms_all in Hrms. rewrite num_timepoints_snd in Hrms.
      destruct subjects; [congruence|discriminate]. }
  pose proof (rms_all_length _ _ Hrms) as Hl.
  destruct (worst_subject_in_range table) as (w & Hw & Hlt).
  { intros ->. destruct subjects; [congruence|discriminate]. }
  rewrite Hw.
  destruct (nth_error all_subs w) as [name|] eqn:E.
  - exists table, w, name. repeat split; auto. lia.
  - apply nth_error_None in E. lia.
Qed.

Lemma worst_subject_name_defined_witness :
  exists table w name,
    rms_all [const_volume 2 2 1 3 1; const_volume 2 2 1 4 1] = Some table
    /\ worst_subject table = Some w
    /\ (w < 2)%nat
    /\ worst_subject_name [Names.sub001; Names.sub002]
         [const_volume 2 2 1 3 1; const_volume 2 2 1 4 1] = Some name
    /\ nth_error [Names.sub001; Names.sub002] w = Some name.
Proof.
  apply (worst_subject_name_defined [Names.sub001; Names.sub002]
           [const_volume 2 2 1 3 1; const_volume 2 2 1 4 1]).
  - reflexivity.
  - discriminate.
  - intros s [<-|[<-|[]]]; unfold nonempty_volume; simpl; lia.
Defined.

(** ** The montage *)

Lemma ceil_sqrt_spec (n : nat) :
  (1 <= n)%nat ->
  (1 <= ceil_sqrt n)%nat
  /\ ((ceil_sqrt n - 1) * (ceil_sqrt n - 1) < n)%nat
  /\ (n <= ceil_sqrt n * ceil_sqrt n)%nat.
Proof.
  intros Hn. unfold ceil_sqrt.
  pose proof (Nat.sqrt_specif n) as [Hlo Hhi].
  destruct (Nat.eqb_spec (Nat.sqrt n * Nat.sqrt n) n) as [E|E].
  - assert (1 <= Nat.sqrt n)%nat by (destruct (Nat.sqrt n); simpl in *; lia).
    repeat split; nia.
  - simpl. rewrite Nat.sub_0_r. repeat split; nia.
Qed.

Lemma repeat_snoc {A : Type} (x : A) (n : nat) :
  repeat x (S n) = repeat x n ++ [x].
Proof. simpl. apply repeat_cons. Qed.

(** The depths of the rows when the number of slices is a square or one
    less than a square. *)
Lemma split_sizes_square (n c : nat) :
  (1 <= c)%nat -> (c * c = n \/ c * c = S n)%nat -> (1 <= n)%nat ->
  repeat (S (n / c)) (n mod c) ++ repeat (n / c)%nat (c - n mod c)
  = repeat c (c - 1) ++ [(n - c * (c - 1))%nat]
  /\ (1 <= n - c * (c - 1) <= c)%nat.
Proof.
  intros Hc [E|E] Hn.
  - assert (Hd : (n / c = c)%nat) by (rewrite <- E; apply Nat.div_mul; lia).
    assert (Hm : (n mod c = 0)%nat)
      by (rewrite <- E; apply Nat.Div0.mod_mul).
    rewrite Hd, Hm. simpl repeat at 1. rewrite Nat.sub_0_r. simpl app at 1.
    replace (n - c * (c - 1))%nat with c by nia.
    split; [|lia].
    replace c with (S (c - 1)) at 2 by lia. apply repeat_snoc.
  - assert (H2 : (2 <= c)%nat) by nia.
    assert (Hz : n = (c * (c - 1) + (c - 1))%nat) by nia.
    assert (Hd : (n / c = c - 1)%nat).
    { symmetry. apply (Nat.div_unique n c (c - 1) (c - 1)); lia. }
    assert (Hm : (n mod c = c - 1)%nat).
    { symmetry. apply (Nat.mod_unique n c (c - 1) (c - 1)); lia. }
    rewrite Hd, Hm.
    replace (S (c - 1)) with c by lia.
    replace (c - (c - 1))%nat with 1%nat by lia.
    replace (n - c * (c - 1))%nat with (c - 1)%nat by lia.
    split; [reflexivity|lia].
Qed.

Lemma sections_app (a : nd3) (s1 s2 : list nat) :
  forall lo,
    Np.sections a lo (s1 ++ s2)
    = Np.sections a lo s1
      ++ Np.sections a (lo + fold_right Nat.add 0%nat s1) s2.
Proof.
  induction s1 as [|k s1 IH]; intros lo; simpl.
  - now rewrite Nat.add_0_r.
  - rewrite IH. now rewrite Nat.add_assoc.
Qed.

Lemma sections_length (a : nd3) (sizes : list nat) :
  forall lo, length (Np.sections a lo sizes) = length sizes.
Proof.
  induction sizes as [|k sizes IH]; intros lo; simpl; [reflexivity|].
  now rewrite IH.
Qed.

Lemma sections_repeat_nth (a : nd3) (k n : nat) :
  forall lo i, (i < n)%nat ->
    nth i (Np.sections a lo (repeat k n)) a = Np.slab a (lo + i * k) k.
Proof.
  induction n as [|n IH]; intros lo i Hi; [lia|].
  destruct i as [|i]; simpl.
  - now rewrite Nat.add_0_r.
  - rewrite IH by lia. f_equal. lia.
Qed.

Lemma sections_dims (a : nd3) (sizes : list nat) :
  forall lo row, In row (Np.sections a lo sizes) ->
    dx3 row = dx3 a /\ dy3 row = dy3 a /\ In (dz3 row) sizes.
Proof.
  induction sizes as [|k sizes IH]; intros lo row; simpl; [tauto|].
  intros [<-|Hin].
  - simpl. auto.
  - destruct (IH _ _ Hin) as (? & ? & ?). auto.
Qed.

Lemma sum_repeat (k n : nat) :
  fold_right Nat.add 0%nat (repeat k n) = (n * k)%nat.
Proof. induction n as [|n IH]; simpl; [reflexivity|]. now rewrite IH. Qed.

Lemma map_last_snoc {A : Type} (f : A -> A) (l : list A) (x : A) :
  map_last f (l ++ [x]) = l ++ [f x].
Proof.
  induction l as [|y l IH]; [reflexivity|].
  simpl. rewrite IH. destruct (l ++ [x]) eqn:E; [|reflexivity].
  destruct l; discriminate.
Qed.

Lemma pad_last_row_snoc (rows : list nd3) (x : nd3) :
  pad_last_row (rows ++ [x])
  = if Nat.ltb (dz3 (hd x rows)) (dz3 x) then None
    else Some (rows ++ [Np.pad_depth x (dz3 (hd x rows) - dz3 x)]).
Proof.
  unfold pad_last_row.
  assert (Hh : match rows ++ [x] with
               | [] => False
               | first :: _ => first = hd x rows
               end) by (destruct rows; reflexivity).
  destruct (rows ++ [x]) as [|first rest] eqn:E; [contradiction|].
  rewrite <- E, last_last, map_last_snoc, Hh. reflexivity.
Qed.

Lemma traverse_none {A B : Type} (f : A -> option B) (l : list A) (x : A) :
  In x l -> f x = None -> traverse f l = None.
Proof.
  induction l as [|y l IH]; intros Hin Hx; [contradiction|].
  simpl. destruct Hin as [->|Hin].
  - now rewrite Hx.
  - destruct (f y); [|reflexivity]. now rewrite IH.
Qed.

Lemma traverse_map {A B : Type} (f : A -> option B) (g : A -> B)
    (l : list A) :
  (forall x, In x l -> f x = Some (g x)) -> traverse f l = Some (map g l).
Proof.
  induction l as [|y l IH]; intros H; [reflexivity|].
  simpl. rewrite (H y) by now left. rewrite IH; [reflexivity|].
  intros x Hx. apply H. now right.
Qed.

Lemma montage_split (vol : nd3) :
  let c := ceil_sqrt (dz3 vol) in
  let l := (dz3 vol - c * (c - 1))%nat in
  (1 <= dz3 vol)%nat -> (c * c = dz3 vol \/ c * c = S (dz3 vol))%nat ->
  (1 <= l <= c)%nat
  /\ exists rows, Np.array_split vol c = Some rows
                  /\ pad_last_row rows = Some (montage_rows vol c l).
Proof.
  intros c l Hz Hc.
  destruct (ceil_sqrt_spec _ Hz) as (Hc1 & _). fold c in Hc1.
  destruct (split_sizes_square (dz3 vol) c Hc1 Hc Hz) as [Hs Hl]. fold l in Hs, Hl.
  split; [assumption|].
  unfold Np.array_split. fold c.
  destruct (Nat.eqb_spec c 0) as [E|_]; [lia|].
  eexists. split; [reflexivity|].
  rewrite Hs, sections_app, sum_repeat. simpl Np.sections at 2.
  rewrite pad_last_row_snoc.
  assert (Hd : dz3 (hd (Np.slab vol ((c - 1) * c) l)
                      (Np.sections vol 0 (repeat c (c - 1)))) = c).
  { destruct (c - 1)%nat as [|k] eqn:E; simpl; [lia|reflexivity]. }
  rewrite Hd. simpl dz3.
  destruct (Nat.ltb_spec c l) as [Hlt|_]; [lia|].
  reflexivity.
Qed.

Lemma montage_rows_length (vol : nd3) (c l : nat) :
  (1 <= c)%nat -> length (montage_rows vol c l) = c.
Proof.
  intros Hc. unfold montage_rows.
  rewrite length_app, sections_length, repeat_length. simpl. lia.
Qed.

Lemma montage_rows_dims (vol : nd3) (c l : nat) (row : nd3) :
  (l <= c)%nat -> In row (montage_rows vol c l) ->
  dx3 row = dx3 vol /\ dy3 row = dy3 vol /\ dz3 row = c.
Proof.
  intros Hl Hin. unfold montage_rows in Hin. apply in_app_iff in Hin.
  destruct Hin as [Hin|[<-|[]]].
  - destruct (sections_dims _ _ _ _ Hin) as (Hx & Hy & Hz).
    apply repeat_spec in Hz. auto.
  - simpl. repeat split. lia.
Qed.

(** The voxels of the rows: row [a] holds the slices [a * c] to
    [a * c + c - 1], blank past the last slice of the volume. *)
Lemma montage_rows_at (vol : nd3) (c l a x y b : nat) :
  (1 <= l <= c)%nat -> dz3 vol = (c * (c - 1) + l)%nat ->
  (a < c)%nat -> (b < c)%nat ->
  at3 (nth a (montage_rows vol c l) vol) x y b
  = if Nat.ltb (a * c + b) (dz3 vol) then at3 vol x y (a * c + b) else 0.
Proof.
  intros Hl Hz Ha Hb. unfold montage_rows.
  destruct (Nat.lt_ge_cases a (c - 1)) as [Hlt|Hge].
  - rewrite app_nth1 by (rewrite sections_length, repeat_length; lia).
    rewrite sections_repeat_nth by lia. simpl.
    destruct (Nat.ltb_spec (a * c + b) (dz3 vol)) as [_|Hn]; [reflexivity|].
    nia.
  - assert (a = (c - 1)%nat) by lia. subst a.
    rewrite app_nth2 by (rewrite sections_length, repeat_length; lia).
    rewrite sections_length, repeat_length, Nat.sub_diag. simpl.
    destruct (Nat.ltb_spec b l) as [H1|H1];
      destruct (Nat.ltb_spec ((c - 1) * c + b) (dz3 vol)) as [H2|H2];
      try reflexivity; nia.
Qed.

Lemma hstack_same (parts : list nd3) (X Y D : nat) :
  parts <> [] ->
  (forall q, In q parts -> dx3 q = X /\ dy3 q = Y /\ dz3 q = D) ->
  Np.hstack parts
  = Some (Nd3 X (length parts * Y) D (Np.hstack_at parts)).
Proof.
  intros Hne Hdims.
  assert (Hsum : fold_right Nat.add 0%nat (map dy3 parts)
                 = (length parts * Y)%nat).
  { clear Hne. induction parts as [|q parts IH]; [reflexivity|].
    simpl. rewrite (proj1 (proj2 (Hdims q (or_introl eq_refl)))).
    f_equal. apply IH. intros q' Hq'. apply Hdims. now right. }
  destruct parts as [|p rest]; [congruence|].
  unfold Np.hstack. rewrite Hsum.
  destruct (Hdims p (or_introl eq_refl)) as (Hx & _ & Hd).
  rewrite Hx, Hd.
  assert (Hall : forallb (fun q => Nat.eqb (dx3 q) X && Nat.eqb (dz3 q) D)
                   rest = true).
  { apply forallb_forall. intros q Hq.
    destruct (Hdims q (or_intror Hq)) as (Hx' & _ & Hd').
    now rewrite Hx', Hd', !Nat.eqb_refl. }
  rewrite Hall. reflexivity.
Qed.

Lemma montage_row_ok (c : nat) (row : nd3) :
  (1 <= c)%nat -> dz3 row = c ->
  montage_row c row = Some (Np.squeeze (montage_tile c row)).
Proof.
  intros Hc Hz. unfold montage_row, Np.dsplit.
  destruct (Nat.eqb_spec c 0) as [E|_]; [lia|].
  rewrite Hz, Nat.Div0.mod_same, Nat.div_same by lia.
  rewrite Nat.eqb_refl.
  rewrite (hstack_same _ (dx3 row) (dy3 row) 1).
  - rewrite sections_length, repeat_length. reflexivity.
  - destruct c; [lia|discriminate].
  - intros q Hq. destruct (sections_dims _ _ _ _ Hq) as (Hx & Hy & Hd).
    apply repeat_spec in Hd. auto.
Qed.

Lemma hstack_at_sections (row : nd3) (c : nat) :
  forall lo x y, (y < c * dy3 row)%nat ->
    Np.hstack_at (Np.sections row lo (repeat 1%nat c)) x y 0
    = at3 row x (y mod dy3 row) (lo + y / dy3 row).
Proof.
  induction c as [|c IH]; intros lo x y Hy; [simpl in Hy; lia|].
  assert (HY : dy3 row <> 0%nat) by (intros E; rewrite E in Hy; lia).
  simpl. destruct (Nat.ltb_spec y (dy3 row)) as [Hlt|Hge].
  - rewrite Nat.mod_small, Nat.div_small by assumption.
    now rewrite Nat.add_0_r.
  - rewrite IH by nia.
    assert (Ey : y = (1 * dy3 row + (y - dy3 row))%nat) by lia.
    assert (Hdiv : (y / dy3 row = 1 + (y - dy3 row) / dy3 row)%nat).
    { rewrite Ey at 1. now apply Nat.div_add_l. }
    assert (Hmod : (y mod dy3 row = (y - dy3 row) mod dy3 row)%nat).
    { rewrite Ey at 1. rewrite Nat.add_comm. apply Nat.Div0.mod_add. }
    rewrite Hdiv, Hmod.
    f_equal. lia.
Qed.

Lemma sections_has (a : nd3) (sizes : list nat) (k : nat) :
  forall lo, In k sizes ->
    exists row, In row (Np.sections a lo sizes) /\ dz3 row = k.
Proof.
  induction sizes as [|s sizes IH]; intros lo; simpl; [tauto|].
  intros [->|Hin].
  - eexists. split; [left; reflexivity|reflexivity].
  - destruct (IH (lo + s)%nat Hin) as (row & Hr & Hd).
    exists row. split; [now right|assumption].
Qed.

Lemma montage_row_fails (c : nat) (row : nd3) :
  (dz3 row mod c <> 0)%nat -> montage_row c row = None.
Proof.
  intros H. unfold montage_row, Np.dsplit.
  destruct (Nat.eqb c 0); [reflexivity|].
  destruct (Nat.eqb_spec (dz3 row mod c) 0); [contradiction|reflexivity].
Qed.

Lemma mod_multiple_le (k c : nat) :
  (1 <= k <= c)%nat -> (k mod c = 0)%nat -> k = c.
Proof.
  intros Hk Hm. destruct (Nat.eq_dec k c) as [E|E]; [assumption|].
  rewrite Nat.mod_small in Hm by lia. lia.
Qed.

(** The montage raises unless the number of slices is a square or one less
    than a square. *)
Lemma montage_fails (vol : nd3) :
  let c := ceil_sqrt (dz3 vol) in
  ~ ((1 <= dz3 vol)%nat /\ (c * c = dz3 vol \/ c * c = S (dz3 vol))%nat) ->
  montage vol = None.
Proof.
  intros c Hn. unfold montage. fold c.
  destruct (Nat.eq_dec (dz3 vol) 0) as [Z0|Z0].
  { unfold Np.array_split. replace c with 0%nat; [reflexivity|].
    unfold c. now rewrite Z0. }
  destruct (ceil_sqrt_spec (dz3 vol) ltac:(lia)) as (Hc1 & Hlo & Hhi).
  fold c in Hc1, Hlo, Hhi.
  unfold Np.array_split.
  destruct (Nat.eqb_spec c 0) as [E|_]; [lia|].
  set (q := (dz3 vol / c)%nat). set (r := (dz3 vol mod c)%nat).
  assert (Hdm : dz3 vol = (c * q + r)%nat) by (apply Nat.div_mod_eq).
  assert (Hr : (r < c)%nat) by (apply Nat.mod_upper_bound; lia).
  assert (Hq : (1 <= q)%nat) by nia.
  replace (c - r)%nat with (S (c - r - 1)) by lia.
  rewrite repeat_snoc, app_assoc.
  set (init := repeat (S q) r ++ repeat q (c - r - 1)).
  rewrite sections_app. simpl Np.sections at 2.
  rewrite pad_last_row_snoc.
  set (x := Np.slab vol (fold_right Nat.add 0%nat init) q).
  set (f := dz3 (hd x (Np.sections vol 0 init))).
  destruct (Nat.ltb_spec f (dz3 x)) as [_|Hfq]; [reflexivity|].
  simpl dz3 in Hfq.
  assert (Hf : f = if Nat.eqb r 0 then q else S q).
  { unfold f, init. destruct r as [|r']; simpl.
    - destruct (c - 0 - 1)%nat; reflexivity.
    - reflexivity. }
  match goal with |- match traverse ?g ?l with _ => _ end = _ =>
    assert (Ht : traverse g l = None); [|now rewrite Ht] end.
  destruct (Nat.eq_dec (f mod c) 0) as [Hm|Hm].
  - (* the first row is a full row: a middle row is too short *)
    destruct (Nat.eqb_spec r 0) as [R0|R0].
    + exfalso. subst f. apply mod_multiple_le in Hm; [|nia].
      apply Hn. split; [lia|]. left. nia.
    + subst f. apply mod_multiple_le in Hm; [|nia].
      assert (Hmid : (1 <= c - r - 1)%nat).
      { destruct (Nat.eq_dec r (c - 1)) as [E|E]; [|lia].
        exfalso. apply Hn. split; [lia|]. right. nia. }
      destruct (sections_has vol init q 0) as (row & Hrow & Hd).
      { unfold init. apply in_app_iff. right.
        destruct (c - r - 1)%nat; [lia|now left]. }
      apply (traverse_none _ _ row).
      * apply in_app_iff. now left.
      * apply montage_row_fails. rewrite Hd.
        rewrite Nat.mod_small by lia. lia.
  - apply (traverse_none _ _ (Np.pad_depth x (f - dz3 x))).
    + apply in_app_iff. right. now left.
    + apply montage_row_fails. simpl dz3.
      replace (q + (f - q))%nat with f by lia. assumption.
Qed.

Lemma tile_image (t : nd3) :
  dz3 t = 1%nat ->
  exists a,
    Np.atleast_2d (Np.squeeze t) = Im2 a
    /\ cols2 a = (if Nat.eqb (dy3 t) 1 then dx3 t else dy3 t)
    /\ (dy3 t <> 1%nat ->
        rows2 a = dx3 t
        /\ forall i j, (i < dx3 t)%nat -> at2 a i j = at3 t i j 0).
Proof.
  intros Hz. unfold Np.squeeze. rewrite Hz. simpl Nat.eqb.
  destruct (Nat.eqb_spec (dx3 t) 1) as [Hx|Hx];
    destruct (Nat.eqb_spec (dy3 t) 1) as [Hy|Hy];
    simpl; eexists; (split; [reflexivity|]); simpl.
  - split; [now rewrite Hx|]. intros; contradiction.
  - split; [reflexivity|]. intros _. split; [now rewrite Hx|].
    intros i j Hi. replace i with 0%nat by lia. reflexivity.
  - split; [reflexivity|]. intros; contradiction.
  - split; [reflexivity|]. intros _. split; [reflexivity|]. reflexivity.
Qed.

Lemma all_2d_some (C : nat) (tiles : list squeezed) :
  (forall s, In s tiles ->
     exists a, Np.atleast_2d s = Im2 a /\ cols2 a = C) ->
  exists l,
    Np.all_2d C (map Np.atleast_2d tiles) = Some l
    /\ Forall2 (fun s a => Np.atleast_2d s = Im2 a) tiles l.
Proof.
  unfold Np.all_2d.
  induction tiles as [|s tiles IH]; intros H; simpl.
  - exists []. split; [reflexivity|constructor].
  - destruct (H s (or_introl eq_refl)) as (a & Ha & Hc).
    destruct (IH (fun s' Hs' => H s' (or_intror Hs'))) as (l & Hl & HF).
    rewrite Ha, Hc, Nat.eqb_refl, Hl.
    exists (a :: l). split; [reflexivity|]. constructor; assumption.
Qed.

Lemma vstack_some (C : nat) (tiles : list squeezed) :
  tiles <> [] ->
  (forall s, In s tiles ->
     exists a, Np.atleast_2d s = Im2 a /\ cols2 a = C) ->
  exists l,
    Np.vstack tiles
    = Some (Im2 (Nd2 (fold_right Nat.add 0%nat (map rows2 l)) C
                     (Np.vstack_at2 l)))
    /\ Forall2 (fun s a => Np.atleast_2d s = Im2 a) tiles l.
Proof.
  intros Hne H. destruct (all_2d_some C tiles H) as (l & Hl & HF).
  exists l. split; [|assumption].
  unfold Np.vstack. destruct tiles as [|s tiles]; [congruence|].
  destruct (H s (or_introl eq_refl)) as (a & Ha & Hc).
  simpl map in *. rewrite Ha in *. rewrite Hc, Hl. reflexivity.
Qed.

Lemma Forall2_nth_rel {A B : Type} (P : A -> B -> Prop) (l1 : list A)
    (l2 : list B) (d1 : A) (d2 : B) :
  Forall2 P l1 l2 ->
  length l1 = length l2
  /\ forall i, (i < length l1)%nat -> P (nth i l1 d1) (nth i l2 d2).
Proof.
  induction 1 as [|x y l1 l2 Hxy _ [IHl IH]]; simpl.
  - split; [reflexivity|]. intros i Hi. lia.
  - split; [now rewrite IHl|]. intros [|i] Hi; [assumption|].
    apply IH. lia.
Qed.

Lemma vstack_at2_same (l : list nd2) (h : nat) (d : nd2) :
  (forall a, In a l -> rows2 a = h) ->
  forall i j, (i < length l * h)%nat ->
    Np.vstack_at2 l i j = at2 (nth (i / h) l d) (i mod h) j.
Proof.
  induction l as [|a l IH]; intros Hall i j Hi; [simpl in Hi; lia|].
  assert (Hh : h <> 0%nat) by (intros E; rewrite E in Hi; lia).
  simpl. rewrite (Hall a (or_introl eq_refl)).
  destruct (Nat.ltb_spec i h) as [Hlt|Hge].
  - now rewrite Nat.div_small, Nat.mod_small by assumption.
  - assert (Ei : i = (1 * h + (i - h))%nat) by lia.
    assert (Hdiv : (i / h = 1 + (i - h) / h)%nat).
    { rewrite Ei at 1. now apply Nat.div_add_l. }
    assert (Hmod : (i mod h = (i - h) mod h)%nat).
    { rewrite Ei at 1. rewrite Nat.add_comm. apply Nat.Div0.mod_add. }
    rewrite Hdiv, Hmod. simpl.
    apply IH; [|simpl in Hi; lia].
    intros a' Ha'. apply Hall. now right.
Qed.

Lemma sum_same {A : Type} (f : A -> nat) (l : list A) (h : nat) :
  (forall a, In a l -> f a = h) ->
  fold_right Nat.add 0%nat (map f l) = (length l * h)%nat.
Proof.
  induction l as [|a l IH]; intros H; [reflexivity|].
  simpl. rewrite (H a (or_introl eq_refl)). f_equal. apply IH.
  intros a' Ha'. apply H. now right.
Qed.

(** The montage of a volume whose number of slices is a square or one less
    than a square: the rows, the tiles and the stacked image. *)
Lemma montage_succeeds (vol : nd3) :
  let c := ceil_sqrt (dz3 vol) in
  let l := (dz3 vol - c * (c - 1))%nat in
  (1 <= dz3 vol)%nat -> (c * c = dz3 vol \/ c * c = S (dz3 vol))%nat ->
  exists imgs,
    montage vol
    = Some (Im2 (Nd2 (fold_right Nat.add 0%nat (map rows2 imgs))
                     (if Nat.eqb (c * dy3 vol) 1 then dx3 vol
                      else (c * dy3 vol)%nat)
                     (Np.vstack_at2 imgs)))
    /\ Forall2 (fun s a => Np.atleast_2d s = Im2 a)
         (map (fun row => Np.squeeze (montage_tile c row))
              (montage_rows vol c l)) imgs.
Proof.
  intros c l Hz Hc.
  destruct (montage_split vol Hz Hc) as (Hl & rows & Hsplit & Hpad).
  fold c in Hsplit, Hpad, Hl. fold l in Hpad, Hl.
  destruct (ceil_sqrt_spec _ Hz) as (Hc1 & _). fold c in Hc1.
  unfold montage. fold c. rewrite Hsplit, Hpad.
  rewrite (traverse_map _ (fun row => Np.squeeze (montage_tile c row))).
  2:{ intros row Hrow. apply montage_row_ok; [assumption|].
      apply (montage_rows_dims vol c l row); [lia|assumption]. }
  apply vstack_some.
  - intros E. apply (f_equal (@length _)) in E.
    rewrite length_map, montage_rows_length in E by assumption.
    simpl in E. lia.
  - intros s Hs. apply in_map_iff in Hs. destruct Hs as (row & <- & Hrow).
    destruct (montage_rows_dims vol c l row ltac:(lia) Hrow)
      as (Hx & Hy & _).
    destruct (tile_image (montage_tile c row) eq_refl) as (a & Ha & Hca & _).
    exists a. split; [assumption|].
    rewrite Hca. simpl. now rewrite Hx, Hy.
Qed.

(** [montage] returns an image exactly when the volume has at least one
    slice and the number of slices is a square or one less than a square
    (1, 3, 4, 8, 9, 15, 16, ..., 35, 36, ...); for every other number of
    slices it raises. *)
Theorem montage_defined_iff (vol : nd3) :
  montage vol <> None
  <-> (1 <= dz3 vol)%nat
      /\ (ceil_sqrt (dz3 vol) * ceil_sqrt (dz3 vol) = dz3 vol
          \/ ceil_sqrt (dz3 vol) * ceil_sqrt (dz3 vol) = S (dz3 vol))%nat.
Proof.
  split.
  - intros Hsome.
    destruct (le_dec 1 (dz3 vol)) as [H1|H1];
      [destruct (Nat.eq_dec (ceil_sqrt (dz3 vol) * ceil_sqrt (dz3 vol))
                   (dz3 vol)) as [H2|H2];
       [|destruct (Nat.eq_dec (ceil_sqrt (dz3 vol) * ceil_sqrt (dz3 vol))
                     (S (dz3 vol))) as [H3|H3]]|];
      try tauto;
      exfalso; apply Hsome; apply montage_fails; tauto.
  - intros [H1 H2]. destruct (montage_succeeds vol H1 H2) as (imgs & E & _).
    rewrite E. discriminate.
Qed.

(** On a volume at least two voxels wide whose number of slices is a square
    or one less than a square, the montage is a 2-d image of [c] by [c]
    tiles, [c] the rounded-up square root of the number of slices: the tile
    in tile row [a] and tile column [b] shows the slice [a * c + b], and the
    one tile past the last slice, if there is one, is blank. *)
Theorem montage_image (vol : nd3) :
  let c := ceil_sqrt (dz3 vol) in
  (1 <= dz3 vol)%nat -> (c * c = dz3 vol \/ c * c = S (dz3 vol))%nat ->
  (2 <= dy3 vol)%nat ->
  exists im,
    montage vol = Some (Im2 im)
    /\ rows2 im = (c * dx3 vol)%nat
    /\ cols2 im = (c * dy3 vol)%nat
    /\ forall i j, (i < c * dx3 vol)%nat -> (j < c * dy3 vol)%nat ->
         at2 im i j
         = if Nat.ltb (tile_slice vol c i j) (dz3 vol)
           then at3 vol (i mod dx3 vol) (j mod dy3 vol) (tile_slice vol c i j)
           else 0.
Proof.
  intros c Hz Hc HY.
  set (l := (dz3 vol - c * (c - 1))%nat).
  destruct (montage_split vol Hz Hc) as (Hl & _). fold c in Hl. fold l in Hl.
  destruct (ceil_sqrt_spec _ Hz) as (Hc1 & _). fold c in Hc1.
  assert (HZ : dz3 vol = (c * (c - 1) + l)%nat) by (unfold l; nia).
  destruct (montage_succeeds vol Hz Hc) as (imgs & E & HF).
  fold c in E, HF. fold l in HF.
  assert (HW : (c * dy3 vol <> 1)%nat) by nia.
  destruct (Nat.eqb_spec (c * dy3 vol) 1) as [|_]; [contradiction|].
  destruct (Forall2_nth_rel _ _ _ (Sq0 0) (Nd2 0 0 (fun _ _ => 0)) HF)
    as [Hlen Hnth].
  rewrite length_map, montage_rows_length in Hlen, Hnth by assumption.
  (* every tile image has the rows and the content of its tile *)
  assert (Himg : forall a, (a < c)%nat ->
            rows2 (nth a imgs (Nd2 0 0 (fun _ _ => 0))) = dx3 vol
            /\ forall i j, (i < dx3 vol)%nat ->
                 at2 (nth a imgs (Nd2 0 0 (fun _ _ => 0))) i j
                 = at3 (montage_tile c (nth a (montage_rows vol c l) vol))
                       i j 0).
  { intros a Ha. specialize (Hnth a Ha).
    rewrite (nth_indep _ (Sq0 0)
               ((fun row => Np.squeeze (montage_tile c row)) vol)) in Hnth
      by (rewrite length_map, montage_rows_length; assumption).
    rewrite (map_nth (fun row => Np.squeeze (montage_tile c row))) in Hnth.
    set (row := nth a (montage_rows vol c l) vol) in *.
    assert (Hrow : In row (montage_rows vol c l))
      by (apply nth_In; rewrite montage_rows_length; assumption).
    destruct (montage_rows_dims vol c l row ltac:(lia) Hrow)
      as (Hx & Hy & Hd).
    destruct (tile_image (montage_tile c row) eq_refl)
      as (a' & Ha' & _ & Hgen).
    rewrite Ha' in Hnth. injection Hnth as <-.
    simpl dy3 in Hgen. simpl dx3 in Hgen. rewrite Hx, Hy in Hgen.
    apply Hgen. assumption. }
  assert (Hrows : forall a, In a imgs -> rows2 a = dx3 vol).
  { intros a Ha. apply (In_nth _ _ (Nd2 0 0 (fun _ _ => 0))) in Ha.
    destruct Ha as (k & Hk & <-). apply Himg. lia. }
  eexists. split; [exact E|]. cbn [rows2 cols2 at2].
  split; [rewrite (sum_same _ _ _ Hrows); lia|].
  split; [reflexivity|].
  intros i j Hi Hj.
  assert (HX : dx3 vol <> 0%nat) by (intros E0; rewrite E0 in Hi; lia).
  rewrite (vstack_at2_same imgs (dx3 vol) (Nd2 0 0 (fun _ _ => 0)) Hrows)
    by (rewrite <- Hlen; assumption).
  assert (Ha : (i / dx3 vol < c)%nat)
    by (apply Nat.Div0.div_lt_upper_bound; lia).
  assert (Hb : (j / dy3 vol < c)%nat)
    by (apply Nat.Div0.div_lt_upper_bound; lia).
  destruct (Himg (i / dx3 vol)%nat Ha) as [_ Hat].
  rewrite Hat by (apply Nat.mod_upper_bound; assumption).
  set (row := nth (i / dx3 vol) (montage_rows vol c l) vol).
  assert (Hrow : In row (montage_rows vol c l))
    by (apply nth_In; rewrite montage_rows_length; assumption).
  destruct (montage_rows_dims vol c l row ltac:(lia) Hrow) as (Hx & Hy & Hd).
  unfold montage_tile. cbn [at3].
  rewrite hstack_at_sections by (rewrite Hy; assumption).
  rewrite Hy. simpl Nat.add. unfold row.
  rewrite montage_rows_at by assumption.
  reflexivity.
Qed.

Lemma montage_image_witness :
  exists im,
    montage (slice_ramp 2 2 3) = Some (Im2 im)
    /\ rows2 im = 4%nat
    /\ cols2 im = 4%nat
    /\ forall i j, (i < 4)%nat -> (j < 4)%nat ->
         at2 im i j
         = if Nat.ltb (tile_slice (slice_ramp 2 2 3) 2 i j) 3
           then at3 (slice_ramp 2 2 3) (i mod 2) (j mod 2)
                  (tile_slice (slice_ramp 2 2 3) 2 i j)
           else 0.
Proof.
  apply (montage_image (slice_ramp 2 2 3)).
  - simpl. lia.
  - right. reflexivity.
  - simpl. lia.
Defined.

Example montage_ten_slices : montage (slice_ramp 2 2 10) = None.
Proof. reflexivity. Qed.

(** ** The loop and the broadcast computation in float64 *)

(** C9, counterexample: on the integer-valued volume [F64.sample] of shape
    (3, 2, 1, 2) the loop gives 0.9128709291752769 for both frames and the
    broadcast computation gives 0.9128709291752768, so in float64 the two
    cells do not yield the same sequence. *)
Lemma C9_float64_differs :
  F64.rms_loop F64.sample = [F64.loop_value; F64.loop_value]
  /\ F64.rms_broadcast F64.sample
     = [F64.broadcast_value; F64.broadcast_value]
  /\ F64.rms_loop F64.sample <> F64.rms_broadcast F64.sample.
Proof.
  assert (E1 : F64.rms_loop F64.sample = [F64.loop_value; F64.loop_value])
    by (vm_compute; reflexivity).
  assert (E2 : F64.rms_broadcast F64.sample
               = [F64.broadcast_value; F64.broadcast_value])
    by (vm_compute; reflexivity).
  split; [exact E1|]. split; [exact E2|].
  rewrite E1, E2. intros H.
  apply (f_equal (fun l => match l with
                           | v :: _ => PrimFloat.eqb v F64.loop_value
                           | [] => false
                           end)) in H.
  vm_compute in H. discriminate.
Qed.

(** ** The displacement table written and read back *)
















